(** * Dual Huffman-table equivalence harness

    A shallow embedding of
    [fuzz/librawspeed/decompressors/HuffmanTable/Dual.cpp]: the entry point
    [LLVMFuzzerTestOneInput], [checkHuffmanTable] and [workloop].

    The two decoder implementations ([IMPL0], [IMPL1]) and the bit pumps are
    template parameters of the source; here they are the members of a type
    class and the variables of a section.  C++ exceptions, failed
    assertions and undefined behaviour are kept apart in the result type
    [exec].  Assertions are taken as compiled in (no [NDEBUG]), and the
    buffer length as representable in the stream's size type. *)

From Stdlib Require Import List ZArith NArith Bool Lia PeanoNat.
From Stdlib Require Import Strings.Byte.
Import ListNotations.

(** ** Exceptions *)

(** The classes of the rawspeed exception hierarchy the harness can see.
    [IOException] and [RawDecoderException] derive from
    [RawspeedException] (the handlers of lines 68-71 name [IOException]
    before its base class, and line 166 has to absorb it); [ThrowRSE]
    throws the base class itself.  Every value of this type is caught by
    [catch (const RawspeedException&)]. *)
Inductive exception : Type :=
| IOException
| RawDecoderException
| RawspeedException.

(** [catch (const rawspeed::IOException&)] *)
Definition catch_IOException (e : exception) : bool :=
  match e with
  | IOException => true
  | _ => false
  end.

(** What a call into a collaborator (byte stream, table, decoder) gives
    back: a value, or an exception in flight. *)
Inductive Res (A : Type) : Type :=
| Value (a : A)
| Raise (e : exception).

Arguments Value {A} a.
Arguments Raise {A} e.

Definition raised {A} (r : Res A) : bool :=
  match r with
  | Value _ => false
  | Raise _ => true
  end.

(** ** Byte cursor *)

(** Modelled from the spec: [rawspeed::ByteStream] (io/ByteStream.h) is not
    part of the sources at hand.  A read cursor over an immutable byte
    buffer with [position], [readByte] and [skip], the last two failing
    with exhaustion when not enough bytes remain. *)
Record ByteStream : Type := mkByteStream {
  data : list byte;
  pos : nat
}.

(** [rawspeed::ByteStream bs(db)]: a cursor at the start of the buffer. *)
Definition ByteStream_new (db : list byte) : ByteStream :=
  {| data := db; pos := 0 |}.

Definition getPosition (bs : ByteStream) : nat := pos bs.

Definition getSize (bs : ByteStream) : nat := length (data bs).

Definition getRemainSize (bs : ByteStream) : nat := getSize bs - pos bs.

(** Bounds check shared by the reading operations. *)
Definition check (bs : ByteStream) (nbytes : nat) : bool :=
  pos bs + nbytes <=? getSize bs.

Definition skipBytes (bs : ByteStream) (nbytes : nat) : Res ByteStream :=
  if check bs nbytes
  then Value {| data := data bs; pos := pos bs + nbytes |}
  else Raise IOException.

Definition getByte (bs : ByteStream) : Res (byte * ByteStream) :=
  match nth_error (data bs) (pos bs) with
  | Some b => Value (b, {| data := data bs; pos := pos bs + 1 |})
  | None => Raise IOException
  end.

(** [getBuffer n]: the next [n] bytes, the cursor moved past them. *)
Definition getBuffer (bs : ByteStream) (nbytes : nat)
  : Res (list byte * ByteStream) :=
  if check bs nbytes
  then Value (firstn nbytes (skipn (pos bs) (data bs)),
              {| data := data bs; pos := pos bs + nbytes |})
  else Raise IOException.

(** A cursor never points past the end of its buffer. *)
Definition in_bounds (bs : ByteStream) : Prop := pos bs <= getSize bs.

(** ** Control flow of the harness *)

(** The assertions of the source, by what they check. *)
Inductive assertion : Type :=
| assert_Data                   (* line 113: Data *)
| assert_construction_failure   (* line 140: failure0 == failure1 *)
| assert_construction_position  (* line 148: equal positions *)
| assert_construction_consumed  (* line 149: position >= 19 *)
| assert_check_position         (* line 102: equal positions *)
| assert_check_fullDecode       (* line 103: equal mode flags *)
| assert_decode_failure         (* line 84: failure0 == failure1 *)
| assert_decode_value.          (* line 94: decoded0 == decoded1 *)

Inductive undefined : Type :=
| uninitialized_read            (* an [int] read before any assignment *)
| unreachable.                  (* [__builtin_unreachable()] executed *)

(** Result of running a piece of the harness. *)
Inductive exec (A : Type) : Type :=
| Done (a : A)                  (* ran to its end *)
| Thrown (e : exception)        (* left by an exception *)
| AssertFail (a : assertion)    (* [assert] failed: [abort()] *)
| Undef (u : undefined).

Arguments Done {A} a.
Arguments Thrown {A} e.
Arguments AssertFail {A} a.
Arguments Undef {A} u.

Definition bind {A B} (c : exec A) (k : A -> exec B) : exec B :=
  match c with
  | Done a => k a
  | Thrown e => Thrown e
  | AssertFail a => AssertFail a
  | Undef u => Undef u
  end.

Declare Scope exec_scope.
Delimit Scope exec_scope with exec.
Notation "x <- c ;; k" := (bind c (fun x => k))
  (at level 61, c at next level, right associativity) : exec_scope.
Notation "' pat <- c ;; k" := (bind c (fun x => match x with pat => k end))
  (at level 61, pat pattern, c at next level, right associativity) : exec_scope.
Notation "c ;; k" := (bind c (fun _ => k))
  (at level 61, right associativity) : exec_scope.
Local Open Scope exec_scope.

(** [assert(b)] *)
Definition assert (b : bool) (a : assertion) : exec unit :=
  if b then Done tt else AssertFail a.

(** [ThrowRSE(...)] *)
Definition ThrowRSE {A} : exec A := Thrown RawspeedException.

(** Reading a local [int] that is assigned only on some paths. *)
Definition read (x : option Z) : exec Z :=
  match x with
  | Some v => Done v
  | None => Undef uninitialized_read
  end.

(** The three bit-pump strategies the selector byte chooses from. *)
Inductive Pump : Type :=
| BitPumpMSB
| BitPumpMSB32
| BitPumpJPEG.

(** How control leaves the [try] block of the entry point. *)
Inductive completion : Type :=
| Return (v : Z)                (* a [return v;] inside the block *)
| FallThrough.                  (* the end of the block *)

(** What the fuzzing driver observes of one call. *)
Inductive outcome : Type :=
| Returned (v : Z)
| Aborted (a : assertion)
| Undefined (u : undefined).

(** A pointer, by its address; [0] is the null pointer. *)
Definition pointer : Type := N.

(** What the harness needs of a Huffman-table implementation, over the
    bit pumps [BitStream].  [createHuffmanTable] takes the cursor by
    reference: on success it gives the table and the cursor after the
    header.  [decode] works on the pump by reference and gives the value
    and the pump's next state.  After an exception the caller uses neither
    that cursor nor that pump again. *)
Class HuffmanTableImpl (BitStream : Pump -> Type) (HT : Type) : Type := {
  HuffmanTable_default : HT;
  createHuffmanTable : ByteStream -> Res (HT * ByteStream);
  isFullDecode : HT -> bool;
  decode : forall P : Pump, bool -> HT -> BitStream P
           -> Res (Z * BitStream P)
}.

(** Construction keeps the cursor on its buffer and within it. *)
Definition cursor_discipline {BitStream : Pump -> Type} (HT : Type)
    {I : HuffmanTableImpl BitStream HT} : Prop :=
  forall bs ht bs',
    in_bounds bs ->
    createHuffmanTable bs = Value (ht, bs') ->
    data bs' = data bs /\ in_bounds bs'.

(** The two failure classes of a decode call. *)
Definition exhausted {A} (r : Res A) : bool :=
  match r with
  | Value _ => false
  | Raise e => catch_IOException e
  end.

Definition structural_failure {A} (r : Res A) : bool :=
  match r with
  | Value _ => false
  | Raise e => negb (catch_IOException e)
  end.

(** The strategy a selector byte stands for. *)
Definition pump_of_selector (selector : byte) : option Pump :=
  match selector with
  | x00 => Some BitPumpMSB
  | x01 => Some BitPumpMSB32
  | x02 => Some BitPumpJPEG
  | _ => None
  end.


(** Modelled from the spec: [createHuffmanTable]
    (decompressors/HuffmanTable/Common.h) and the table classes it drives
    are not part of the sources at hand.  The layout is that of the
    spec's input buffer and of the comment of lines 146-147: 16 bytes of
    counts, one per code length, forwarded verbatim to the table; at
    least one byte of code values, as many as the table asks for; one
    byte for the fixup flag and one for the full-decode flag.  The table
    may reject the counts or the finished set-up with a structural
    failure; too few bytes is an exhaustion of the cursor. *)
Record TableBuilder (HT : Type) : Type := {
  setNCodesPerLength : list byte -> Res positive;
  setup : list byte -> list byte -> bool -> bool -> Res HT
}.

Arguments setNCodesPerLength {HT} t counts.
Arguments setup {HT} t counts values fixDNGBug16 fullDecode.

Definition flag_of_byte (b : byte) : bool :=
  match b with
  | x00 => false
  | _ => true
  end.

(** Modelled from the spec: [createHuffmanTable], see [TableBuilder]. *)
Definition createHuffmanTable_layout {HT : Type} (t : TableBuilder HT)
    (bs : ByteStream) : Res (HT * ByteStream) :=
  match getBuffer bs 16 with
  | Raise e => Raise e
  | Value (counts, bs) =>
      match setNCodesPerLength t counts with
      | Raise e => Raise e
      | Value count =>
          match getBuffer bs (Pos.to_nat count) with
          | Raise e => Raise e
          | Value (values, bs) =>
              match getBuffer bs 2 with
              | Raise e => Raise e
              | Value (flags, bs) =>
                  match setup t counts values
                          (flag_of_byte (nth 0 flags x00))
                          (flag_of_byte (nth 1 flags x00)) with
                  | Raise e => Raise e
                  | Value ht => Value (ht, bs)
                  end
              end
          end
      end
  end.

(** An implementation whose tables are built over that layout. *)
Definition layout_impl {BitStream : Pump -> Type} {HT : Type}
    (t : TableBuilder HT) (I : HuffmanTableImpl BitStream HT)
  : HuffmanTableImpl BitStream HT := {|
  HuffmanTable_default := HuffmanTable_default;
  createHuffmanTable := createHuffmanTable_layout t;
  isFullDecode := isFullDecode;
  decode := decode
|}.

Section Dual.

(** State of a bit pump of strategy [P], and [Pump bits(bs)]. *)
Variable BitStream : Pump -> Type.
Variable BitStream_new : forall P : Pump, ByteStream -> BitStream P.

Context {HT0 HT1 : Type}.
Context {IMPL0 : HuffmanTableImpl BitStream HT0}.
Context {IMPL1 : HuffmanTableImpl BitStream HT1}.

(** One guarded decode call of the loop (lines 66-73 and 74-81): the
    local [decoded], the flag [failure] and the pump afterwards. *)
Definition try_decode {HT : Type} {I : HuffmanTableImpl BitStream HT}
    (P : Pump) (IsFullDecode : bool) (ht : HT) (bits : BitStream P)
  : exec (option Z * bool * BitStream P) :=
  match decode P IsFullDecode ht bits with
  | Value (d, bits') => Done (Some d, false, bits')
  | Raise e =>
      if catch_IOException e
      then Thrown e                      (* throw; *)
      else Done (None, true, bits)       (* failure = true; *)
  end.

(** The body of [while (true)] in [workloop] (lines 60-94). *)
Definition workloop_body (P : Pump) (IsFullDecode : bool)
    (ht0 : HT0) (ht1 : HT1) (bits0 bits1 : BitStream P)
  : exec (BitStream P * BitStream P) :=
  '(decoded0, failure0, bits0) <- try_decode P IsFullDecode ht0 bits0 ;;
  '(decoded1, failure1, bits1) <- try_decode P IsFullDecode ht1 bits1 ;;
  assert (Bool.eqb failure0 failure1) assert_decode_failure ;;
  (if failure0 || failure1 then ThrowRSE else Done tt) ;;
  d0 <- read decoded0 ;;
  d1 <- read decoded1 ;;
  assert (d0 =? d1)%Z assert_decode_value ;;
  Done (bits0, bits1).

(** The loop itself; [None] when [fuel] iterations did not end it. *)
Fixpoint workloop_from (fuel : nat) (P : Pump) (IsFullDecode : bool)
    (ht0 : HT0) (ht1 : HT1) (bits0 bits1 : BitStream P)
  : option (exec unit) :=
  match fuel with
  | O => None
  | S fuel' =>
      match workloop_body P IsFullDecode ht0 ht1 bits0 bits1 with
      | Done (bits0', bits1') =>
          workloop_from fuel' P IsFullDecode ht0 ht1 bits0' bits1'
      | Thrown e => Some (Thrown e)
      | AssertFail a => Some (AssertFail a)
      | Undef u => Some (Undef u)
      end
  end.

Definition workloop (fuel : nat) (P : Pump) (IsFullDecode : bool)
    (bs0 bs1 : ByteStream) (ht0 : HT0) (ht1 : HT1)
  : option (exec unit) :=
  let bits0 := BitStream_new P bs0 in
  let bits1 := BitStream_new P bs1 in
  workloop_from fuel P IsFullDecode ht0 ht1 bits0 bits1.

Definition checkHuffmanTable (fuel : nat) (P : Pump)
    (bs0 bs1 : ByteStream) (ht0 : HT0) (ht1 : HT1)
  : option (exec unit) :=
  if negb (getPosition bs0 =? getPosition bs1)
  then Some (AssertFail assert_check_position)
  else if negb (Bool.eqb (isFullDecode ht0) (isFullDecode ht1))
  then Some (AssertFail assert_check_fullDecode)
  else if isFullDecode ht0
  then workloop fuel P true bs0 bs1 ht0 ht1
  else workloop fuel P false bs0 bs1 ht0 ht1.

(** [checkHuffmanTable<...>(...); break;] *)
Definition then_break (r : option (exec unit)) : option (exec completion) :=
  match r with
  | None => None
  | Some c => Some (c ;; Done FallThrough)
  end.

(** One guarded construction (lines 128-132 and 133-137): table, cursor
    and flag afterwards. *)
Definition try_create {HT : Type} {I : HuffmanTableImpl BitStream HT}
    (ht : HT) (bs : ByteStream) : HT * ByteStream * bool :=
  match createHuffmanTable bs with
  | Value (ht', bs') => (ht', bs', false)
  | Raise _ => (ht, bs, true)            (* failure = true; *)
  end.

(** Lines 151-165: "Which bit pump should we use?" *)
Definition select_pump (fuel : nat) (bs0 bs1 : ByteStream)
    (ht0 : HT0) (ht1 : HT1) : option (exec completion) :=
  match skipBytes bs1 1 with
  | Raise e => Some (Thrown e)
  | Value bs1 =>
      match getByte bs0 with
      | Raise e => Some (Thrown e)
      | Value (selector, bs0) =>
          match selector with
          | x00 => then_break (checkHuffmanTable fuel BitPumpMSB bs0 bs1 ht0 ht1)
          | x01 => then_break (checkHuffmanTable fuel BitPumpMSB32 bs0 bs1 ht0 ht1)
          | x02 => then_break (checkHuffmanTable fuel BitPumpJPEG bs0 bs1 ht0 ht1)
          | _ => Some ThrowRSE
          end
      end
  end.

(** The [try] block of the entry point (lines 116-165). *)
Definition try_block (fuel : nat) (db : list byte)
  : option (exec completion) :=
  let bs0 := ByteStream_new db in
  let bs1 := ByteStream_new db in
  let ht0 := HuffmanTable_default in
  let ht1 := HuffmanTable_default in
  let '(ht0, bs0, failure0) := try_create ht0 bs0 in
  let '(ht1, bs1, failure1) := try_create ht1 bs1 in
  if negb (Bool.eqb failure0 failure1)
  then Some (AssertFail assert_construction_failure)
  else if failure0 || failure1
  then Some (Done (Return 0))
  else if negb (getPosition bs0 =? getPosition bs1)
  then Some (AssertFail assert_construction_position)
  else if negb (19 <=? getPosition bs0)
  then Some (AssertFail assert_construction_consumed)
  else select_pump fuel bs0 bs1 ht0 ht1.

(** The outermost handler and what follows the [try] statement. *)
Definition finish (c : exec completion) : outcome :=
  match c with
  | Done (Return v) => Returned v
  | Done FallThrough => Undefined unreachable
  | Thrown _ => Returned 0               (* catch (RawspeedException&) *)
  | AssertFail a => Aborted a
  | Undef u => Undefined u
  end.

Definition LLVMFuzzerTestOneInput (fuel : nat) (Data : pointer)
    (bytes : list byte) : option outcome :=
  if (Data =? 0)%N
  then Some (Aborted assert_Data)
  else option_map finish (try_block fuel bytes).

(** *** Points of a run *)

(** The pumps after [n] iterations of the loop that all ran to their
    end. *)
Fixpoint iterate (n : nat) (P : Pump) (IsFullDecode : bool)
    (ht0 : HT0) (ht1 : HT1) (bits0 bits1 : BitStream P)
  : option (BitStream P * BitStream P) :=
  match n with
  | O => Some (bits0, bits1)
  | S n' =>
      match workloop_body P IsFullDecode ht0 ht1 bits0 bits1 with
      | Done (bits0', bits1') => iterate n' P IsFullDecode ht0 ht1 bits0' bits1'
      | _ => None
      end
  end.

(** Both constructions succeed on the buffer. *)
Definition constructed (bytes : list byte)
    (ht0 : HT0) (c0 : ByteStream) (ht1 : HT1) (c1 : ByteStream) : Prop :=
  createHuffmanTable (ByteStream_new bytes) = Value (ht0, c0) /\
  createHuffmanTable (ByteStream_new bytes) = Value (ht1, c1).

(** ... and the run gets past the cursor checks of lines 148-149. *)
Definition reaches_selection (bytes : list byte)
    (ht0 : HT0) (c0 : ByteStream) (ht1 : HT1) (c1 : ByteStream) : Prop :=
  constructed bytes ht0 c0 ht1 c1 /\
  getPosition c0 = getPosition c1 /\
  19 <= getPosition c0.

(** ... and a selector of strategy [P] is read: [checkHuffmanTable<P>]
    is called on the cursors [bs0], [bs1]. *)
Definition reaches_check (bytes : list byte) (P : Pump)
    (ht0 : HT0) (ht1 : HT1) (bs0 bs1 : ByteStream) : Prop :=
  exists c0 c1 selector,
    reaches_selection bytes ht0 c0 ht1 c1 /\
    skipBytes c1 1 = Value bs1 /\
    getByte c0 = Value (selector, bs0) /\
    pump_of_selector selector = Some P.

(** ... and the mode flags agree: [workloop<P, IsFullDecode>] is
    called. *)
Definition reaches_workloop (bytes : list byte) (P : Pump)
    (IsFullDecode : bool) (ht0 : HT0) (ht1 : HT1)
    (bs0 bs1 : ByteStream) : Prop :=
  reaches_check bytes P ht0 ht1 bs0 bs1 /\
  isFullDecode ht0 = IsFullDecode /\
  isFullDecode ht1 = IsFullDecode.

(** ... and [n] iterations ran to their end, leaving the pumps as
    [bits0], [bits1]. *)
Definition reaches_iteration (bytes : list byte) (n : nat) (P : Pump)
    (IsFullDecode : bool) (ht0 : HT0) (ht1 : HT1)
    (bits0 bits1 : BitStream P) : Prop :=
  exists bs0 bs1,
    reaches_workloop bytes P IsFullDecode ht0 ht1 bs0 bs1 /\
    iterate n P IsFullDecode ht0 ht1
      (BitStream_new P bs0) (BitStream_new P bs1) = Some (bits0, bits1).

(** The equivalence checks and what makes them fail:
    [divergence bytes n a] when, after [n] iterations of the loop that
    ran to their end ([0] before the loop), the check [a] is reached and
    the two sides differ in what it compares. *)
Inductive divergence (bytes : list byte) : nat -> assertion -> Prop :=
| construction_diverges :
    raised (createHuffmanTable (HuffmanTableImpl := IMPL0) (ByteStream_new bytes))
      <> raised (createHuffmanTable (HuffmanTableImpl := IMPL1) (ByteStream_new bytes)) ->
    divergence bytes 0 assert_construction_failure
| mode_diverges (P : Pump) (ht0 : HT0) (ht1 : HT1) (bs0 bs1 : ByteStream) :
    reaches_check bytes P ht0 ht1 bs0 bs1 ->
    isFullDecode ht0 <> isFullDecode ht1 ->
    divergence bytes 0 assert_check_fullDecode
| failure_diverges (n : nat) (P : Pump) (IsFullDecode : bool)
    (ht0 : HT0) (ht1 : HT1) (bits0 bits1 : BitStream P) :
    reaches_iteration bytes n P IsFullDecode ht0 ht1 bits0 bits1 ->
    exhausted (decode P IsFullDecode ht0 bits0) = false ->
    exhausted (decode P IsFullDecode ht1 bits1) = false ->
    structural_failure (decode P IsFullDecode ht0 bits0)
      <> structural_failure (decode P IsFullDecode ht1 bits1) ->
    divergence bytes n assert_decode_failure
| value_diverges (n : nat) (P : Pump) (IsFullDecode : bool)
    (ht0 : HT0) (ht1 : HT1) (bits0 bits1 bits0' bits1' : BitStream P)
    (d0 d1 : Z) :
    reaches_iteration bytes n P IsFullDecode ht0 ht1 bits0 bits1 ->
    decode P IsFullDecode ht0 bits0 = Value (d0, bits0') ->
    decode P IsFullDecode ht1 bits1 = Value (d1, bits1') ->
    d0 <> d1 ->
    divergence bytes n assert_decode_value.

(** [n] successive decode calls of one table on one pump, as a caller of
    that table alone makes them: the values in order and the pump
    afterwards, [None] when one of the calls throws. *)
Fixpoint decode_run {HT : Type} {I : HuffmanTableImpl BitStream HT}
    (n : nat) (P : Pump) (IsFullDecode : bool) (ht : HT) (bits : BitStream P)
  : option (list Z * BitStream P) :=
  match n with
  | O => Some ([], bits)
  | S n' =>
      match decode P IsFullDecode ht bits with
      | Value (d, bits') =>
          match decode_run n' P IsFullDecode ht bits' with
          | Some (ds, bits'') => Some (d :: ds, bits'')
          | None => None
          end
      | Raise _ => None
      end
  end.

End Dual.

Arguments try_decode {BitStream HT I} P IsFullDecode ht bits.
Arguments workloop_body {BitStream HT0 HT1 IMPL0 IMPL1} P IsFullDecode ht0 ht1 bits0 bits1.
Arguments workloop_from {BitStream HT0 HT1 IMPL0 IMPL1} fuel P IsFullDecode ht0 ht1 bits0 bits1.
Arguments workloop {BitStream} BitStream_new {HT0 HT1 IMPL0 IMPL1} fuel P IsFullDecode bs0 bs1 ht0 ht1.
Arguments checkHuffmanTable {BitStream} BitStream_new {HT0 HT1 IMPL0 IMPL1} fuel P bs0 bs1 ht0 ht1.
Arguments try_create {BitStream HT I} ht bs.
Arguments select_pump {BitStream} BitStream_new {HT0 HT1 IMPL0 IMPL1} fuel bs0 bs1 ht0 ht1.
Arguments try_block {BitStream} BitStream_new {HT0 HT1 IMPL0 IMPL1} fuel db.
Arguments LLVMFuzzerTestOneInput {BitStream} BitStream_new {HT0 HT1 IMPL0 IMPL1} fuel Data bytes.
Arguments iterate {BitStream HT0 HT1 IMPL0 IMPL1} n P IsFullDecode ht0 ht1 bits0 bits1.
Arguments constructed {BitStream HT0 HT1 IMPL0 IMPL1} bytes ht0 c0 ht1 c1.
Arguments reaches_selection {BitStream HT0 HT1 IMPL0 IMPL1} bytes ht0 c0 ht1 c1.
Arguments reaches_check {BitStream HT0 HT1 IMPL0 IMPL1} bytes P ht0 ht1 bs0 bs1.
Arguments reaches_workloop {BitStream HT0 HT1 IMPL0 IMPL1} bytes P IsFullDecode ht0 ht1 bs0 bs1.
Arguments reaches_iteration {BitStream} BitStream_new {HT0 HT1 IMPL0 IMPL1} bytes n P IsFullDecode ht0 ht1 bits0 bits1.
Arguments divergence {BitStream} BitStream_new {HT0 HT1} IMPL0 IMPL1 bytes n a.
Arguments decode_run {BitStream HT I} n P IsFullDecode ht bits.

(** ** A table implementation to run the harness on

    A small decoder over the buffer layout the harness expects: 16 counts,
    as many code values as the counts add up to, the [fixDNGBug16] byte and
    the [fullDecode] byte.  Its codes are whole bytes: a payload byte is
    the index of a code value.  [quirks] turns it into variants that
    differ from the reference the way a faulty implementation would. *)
Module Fixture.

Definition Bits (P : Pump) : Type := list byte.

Definition Bits_new (P : Pump) (bs : ByteStream) : Bits P :=
  skipn (pos bs) (data bs).

Record Table : Type := mkTable {
  codeValues : list byte;
  fixDNGBug16 : bool;
  fullDecode : bool
}.

Record quirks : Type := mkQuirks {
  flag_bytes : nat;        (* flag bytes read after the code values *)
  invert_mode : bool;      (* the mode flag is stored negated *)
  default_on_miss : bool;  (* an unknown code decodes to 0 *)
  bias : Z                 (* added to every decoded value *)
}.

Definition nonzero (b : byte) : bool :=
  match b with
  | x00 => false
  | _ => true
  end.

Definition create (q : quirks) (bs : ByteStream) : Res (Table * ByteStream) :=
  match getBuffer bs 16 with
  | Raise e => Raise e
  | Value (counts, bs) =>
      let count := list_sum (map Byte.to_nat counts) in
      if count =? 0
      then Raise RawDecoderException
      else
        match getBuffer bs count with
        | Raise e => Raise e
        | Value (values, bs) =>
            match getBuffer bs (flag_bytes q) with
            | Raise e => Raise e
            | Value (flags, bs) =>
                Value ({| codeValues := values;
                          fixDNGBug16 := nonzero (nth 0 flags x00);
                          fullDecode :=
                            xorb (invert_mode q) (nonzero (nth 1 flags x00)) |},
                       bs)
            end
        end
  end.

Definition decode_byte (q : quirks) (P : Pump) (IsFullDecode : bool)
    (ht : Table) (bits : Bits P) : Res (Z * Bits P) :=
  match bits with
  | [] => Raise IOException
  | b :: rest =>
      match nth_error (codeValues ht) (Byte.to_nat b) with
      | Some v =>
          let d := if IsFullDecode then Byte.to_nat v else Byte.to_nat b in
          Value ((Z.of_nat d + bias q)%Z, rest)
      | None =>
          if default_on_miss q
          then Value (0%Z, rest)
          else Raise RawDecoderException
      end
  end.

Definition impl (q : quirks) : HuffmanTableImpl Bits Table := {|
  HuffmanTable_default :=
    {| codeValues := []; fixDNGBug16 := false; fullDecode := false |};
  createHuffmanTable := create q;
  isFullDecode := fullDecode;
  decode := decode_byte q
|}.

Definition reference : quirks :=
  {| flag_bytes := 2; invert_mode := false; default_on_miss := false; bias := 0 |}.

(** Reads one flag byte only. *)
Definition short_header : quirks :=
  {| flag_bytes := 1; invert_mode := false; default_on_miss := false; bias := 0 |}.

Definition inverted : quirks :=
  {| flag_bytes := 2; invert_mode := true; default_on_miss := false; bias := 0 |}.

Definition lenient : quirks :=
  {| flag_bytes := 2; invert_mode := false; default_on_miss := true; bias := 0 |}.

Definition biased : quirks :=
  {| flag_bytes := 2; invert_mode := false; default_on_miss := false; bias := 1 |}.

(** One code of length 1 with value 5, [fixDNGBug16] off, full decode
    on: 19 bytes. *)
Definition header : list byte :=
  x01 :: repeat x00 15 ++ [x05; x00; x01].

(** The table operations of the reference, for
    [createHuffmanTable_layout]. *)
Definition builder : TableBuilder Table := {|
  setNCodesPerLength := fun counts =>
    let count := list_sum (map Byte.to_nat counts) in
    if count =? 0 then Raise RawDecoderException
    else Value (Pos.of_nat count);
  setup := fun _ values fixup full =>
    Value {| codeValues := values; fixDNGBug16 := fixup; fullDecode := full |}
|}.

(** The table that [header] describes, in either mode. *)
Definition table (full : bool) : Table :=
  {| codeValues := [x05]; fixDNGBug16 := false; fullDecode := full |}.

(** Sixteen zero counts: a header no table can be built from. *)
Definition empty_counts : list byte := repeat x00 16.

(** The entry point on the implementations [q0] and [q1], called with
    a valid pointer. *)
Definition run (q0 q1 : quirks) (fuel : nat) (bytes : list byte)
  : option outcome :=
  LLVMFuzzerTestOneInput Bits_new (IMPL0 := impl q0) (IMPL1 := impl q1)
    fuel 1%N bytes.

End Fixture.

(** Proves that a run on a concrete buffer gets to a given point, and
    that a concrete pointer is not null. *)
Ltac reach :=
  unfold reaches_iteration, reaches_workloop, reaches_check,
    reaches_selection, constructed;
  repeat (first [split | eexists]); simpl; try lia.

Ltac valid_pointer := let H := fresh in intros H; discriminate H.

(** * Properties of the harness *)

Section Properties.

Variable BitStream : Pump -> Type.
Variable BitStream_new : forall P : Pump, ByteStream -> BitStream P.
Context {HT0 HT1 : Type}.
Context {IMPL0 : HuffmanTableImpl BitStream HT0}.
Context {IMPL1 : HuffmanTableImpl BitStream HT1}.

Local Abbreviation entry :=
  (LLVMFuzzerTestOneInput BitStream_new (IMPL0 := IMPL0) (IMPL1 := IMPL1)).
Local Abbreviation block :=
  (try_block BitStream_new (IMPL0 := IMPL0) (IMPL1 := IMPL1)).

(** ** The byte cursor *)

Lemma skipBytes_inv {bs bs' : ByteStream} {n : nat} :
  skipBytes bs n = Value bs' ->
  data bs' = data bs /\ pos bs' = pos bs + n /\ pos bs + n <= getSize bs.
Proof.
  unfold skipBytes, check.
  destruct (pos bs + n <=? getSize bs) eqn:E; [|discriminate].
  intros [= <-]. apply Nat.leb_le in E. auto.
Qed.

Lemma getByte_inv {bs bs' : ByteStream} {b : byte} :
  getByte bs = Value (b, bs') ->
  data bs' = data bs /\ pos bs' = pos bs + 1 /\
  nth_error (data bs) (pos bs) = Some b.
Proof.
  unfold getByte.
  destruct (nth_error (data bs) (pos bs)) as [b'|]; [|discriminate].
  intros [= <- <-]. auto.
Qed.

Lemma exception_is_IOException (e : exception) :
  catch_IOException e = true -> e = IOException.
Proof. destruct e; simpl; congruence. Qed.

(** ** One iteration of the loop *)

Lemma try_decode_exhausted {HT : Type} {I : HuffmanTableImpl BitStream HT}
    P full (ht : HT) (bits : BitStream P) :
  exhausted (decode P full ht bits) = true ->
  try_decode P full ht bits = Thrown IOException.
Proof.
  unfold try_decode. destruct (decode P full ht bits) as [[d b]|e]; simpl.
  - discriminate.
  - intros E. rewrite E. now rewrite (exception_is_IOException e E).
Qed.

Lemma try_decode_structural {HT : Type} {I : HuffmanTableImpl BitStream HT}
    P full (ht : HT) (bits : BitStream P) :
  structural_failure (decode P full ht bits) = true ->
  try_decode P full ht bits = Done (None, true, bits).
Proof.
  unfold try_decode. destruct (decode P full ht bits) as [[d b]|e]; simpl.
  - discriminate.
  - intros E. apply negb_true_iff in E. now rewrite E.
Qed.

Lemma try_decode_value {HT : Type} {I : HuffmanTableImpl BitStream HT}
    P full (ht : HT) (bits bits' : BitStream P) (d : Z) :
  decode P full ht bits = Value (d, bits') ->
  try_decode P full ht bits = Done (Some d, false, bits').
Proof. unfold try_decode. now intros ->. Qed.

(** A decode call ends in exactly one of three ways. *)
Lemma decode_cases {HT : Type} {I : HuffmanTableImpl BitStream HT}
    P full (ht : HT) (bits : BitStream P) :
  (exists d bits', decode P full ht bits = Value (d, bits')) \/
  exhausted (decode P full ht bits) = true \/
  (exhausted (decode P full ht bits) = false /\
   structural_failure (decode P full ht bits) = true).
Proof.
  destruct (decode P full ht bits) as [[d b]|e]; simpl.
  - left; eauto.
  - destruct (catch_IOException e); auto.
Qed.

Lemma workloop_body_exhausted0 P full (ht0 : HT0) (ht1 : HT1) (bits0 bits1 : BitStream P) :
  exhausted (decode P full ht0 bits0) = true ->
  workloop_body P full ht0 ht1 bits0 bits1 = Thrown IOException.
Proof.
  intros E. unfold workloop_body.
  now rewrite (try_decode_exhausted _ _ _ _ E).
Qed.

Lemma workloop_body_exhausted1 P full (ht0 : HT0) (ht1 : HT1) (bits0 bits1 : BitStream P) :
  exhausted (decode P full ht0 bits0) = false ->
  exhausted (decode P full ht1 bits1) = true ->
  workloop_body P full ht0 ht1 bits0 bits1 = Thrown IOException.
Proof.
  intros E0 E1. unfold workloop_body.
  rewrite (try_decode_exhausted _ _ _ _ E1).
  unfold try_decode.
  destruct (decode P full ht0 bits0) as [[d b]|e]; simpl in *.
  - reflexivity.
  - now rewrite E0.
Qed.

Lemma workloop_body_both_fail P full (ht0 : HT0) (ht1 : HT1) (bits0 bits1 : BitStream P) :
  structural_failure (decode P full ht0 bits0) = true ->
  structural_failure (decode P full ht1 bits1) = true ->
  workloop_body P full ht0 ht1 bits0 bits1 = Thrown RawspeedException.
Proof.
  intros E0 E1. unfold workloop_body.
  rewrite (try_decode_structural _ _ _ _ E0).
  rewrite (try_decode_structural _ _ _ _ E1).
  reflexivity.
Qed.

Lemma workloop_body_mismatch P full (ht0 : HT0) (ht1 : HT1) (bits0 bits1 : BitStream P) :
  exhausted (decode P full ht0 bits0) = false ->
  exhausted (decode P full ht1 bits1) = false ->
  structural_failure (decode P full ht0 bits0)
    <> structural_failure (decode P full ht1 bits1) ->
  workloop_body P full ht0 ht1 bits0 bits1 = AssertFail assert_decode_failure.
Proof.
  intros E0 E1 N. unfold workloop_body, try_decode.
  destruct (decode P full ht0 bits0) as [[d0 b0]|e0];
    destruct (decode P full ht1 bits1) as [[d1 b1]|e1];
    simpl in *; try rewrite E0; try rewrite E1; simpl in *;
    try reflexivity; congruence.
Qed.

Lemma workloop_body_values {P full} {ht0 : HT0} {ht1 : HT1}
    {bits0 bits1 bits0' bits1' : BitStream P} {d0 d1 : Z} :
  decode P full ht0 bits0 = Value (d0, bits0') ->
  decode P full ht1 bits1 = Value (d1, bits1') ->
  workloop_body P full ht0 ht1 bits0 bits1 =
    if (d0 =? d1)%Z then Done (bits0', bits1')
    else AssertFail assert_decode_value.
Proof.
  intros E0 E1. unfold workloop_body.
  rewrite (try_decode_value _ _ _ _ _ _ E0), (try_decode_value _ _ _ _ _ _ E1).
  simpl. now destruct (d0 =? d1)%Z.
Qed.

(** The comparison of line 94 reads no unassigned local. *)
Lemma workloop_body_defined P full (ht0 : HT0) (ht1 : HT1) (bits0 bits1 : BitStream P) u :
  workloop_body P full ht0 ht1 bits0 bits1 <> Undef u.
Proof.
  unfold workloop_body, try_decode.
  destruct (decode P full ht0 bits0) as [[d0 b0]|e0];
    destruct (decode P full ht1 bits1) as [[d1 b1]|e1]; simpl;
    try destruct (catch_IOException e0); try destruct (catch_IOException e1);
    simpl; try discriminate.
  destruct (d0 =? d1)%Z; discriminate.
Qed.

(** ** The loop *)

Lemma workloop_from_iterate {n} fuel {P full} {ht0 : HT0} {ht1 : HT1}
    {bits0 bits1 bits0' bits1' : BitStream P} :
  iterate n P full ht0 ht1 bits0 bits1 = Some (bits0', bits1') ->
  workloop_from (n + fuel) P full ht0 ht1 bits0 bits1 =
  workloop_from fuel P full ht0 ht1 bits0' bits1'.
Proof.
  revert bits0 bits1. induction n as [|n IH]; intros bits0 bits1; simpl.
  - now intros [= -> ->].
  - destruct (workloop_body P full ht0 ht1 bits0 bits1) as [[b0 b1]| | |];
      try discriminate.
    apply IH.
Qed.

Lemma iterate_step {n P full} {ht0 : HT0} {ht1 : HT1}
    {bits0 bits1 b0 b1 b0' b1' : BitStream P} :
  iterate n P full ht0 ht1 bits0 bits1 = Some (b0, b1) ->
  workloop_body P full ht0 ht1 b0 b1 = Done (b0', b1') ->
  iterate (S n) P full ht0 ht1 bits0 bits1 = Some (b0', b1').
Proof.
  revert bits0 bits1. induction n as [|n IH]; intros bits0 bits1.
  - simpl. intros [= -> ->] ->. reflexivity.
  - intros H Hb. simpl in H.
    change (iterate (S (S n)) P full ht0 ht1 bits0 bits1) with
      (match workloop_body P full ht0 ht1 bits0 bits1 with
       | Done (x, y) => iterate (S n) P full ht0 ht1 x y
       | _ => None
       end).
    destruct (workloop_body P full ht0 ht1 bits0 bits1) as [[x y]| | |];
      try discriminate.
    now apply IH.
Qed.

(** The loop has no exit of its own: it ends by an exception or an
    assertion only. *)
Lemma workloop_from_never_done fuel P full (ht0 : HT0) (ht1 : HT1)
    (bits0 bits1 : BitStream P) (u : unit) :
  workloop_from fuel P full ht0 ht1 bits0 bits1 <> Some (Done u).
Proof.
  revert bits0 bits1. induction fuel as [|fuel IH]; intros bits0 bits1; simpl.
  - discriminate.
  - destruct (workloop_body P full ht0 ht1 bits0 bits1) as [[b0 b1]| | |];
      try discriminate.
    apply IH.
Qed.

Lemma workloop_from_defined fuel P full (ht0 : HT0) (ht1 : HT1)
    (bits0 bits1 : BitStream P) (u : undefined) :
  workloop_from fuel P full ht0 ht1 bits0 bits1 <> Some (Undef u).
Proof.
  revert bits0 bits1. induction fuel as [|fuel IH]; intros bits0 bits1; simpl.
  - discriminate.
  - destruct (workloop_body P full ht0 ht1 bits0 bits1) as [[b0 b1]| | |] eqn:E;
      try discriminate.
    + apply IH.
    + intros [= ->]. now apply workloop_body_defined in E.
Qed.

(** More fuel never changes a result already reached. *)
Lemma workloop_from_mono fuel fuel' P full (ht0 : HT0) (ht1 : HT1)
    (bits0 bits1 : BitStream P) (r : exec unit) :
  fuel <= fuel' ->
  workloop_from fuel P full ht0 ht1 bits0 bits1 = Some r ->
  workloop_from fuel' P full ht0 ht1 bits0 bits1 = Some r.
Proof.
  revert fuel' bits0 bits1.
  induction fuel as [|fuel IH]; intros fuel' bits0 bits1 L; simpl.
  - discriminate.
  - destruct fuel' as [|fuel']; [lia|]. simpl.
    destruct (workloop_body P full ht0 ht1 bits0 bits1) as [[b0 b1]| | |];
      auto.
    apply IH. lia.
Qed.

Lemma checkHuffmanTable_mono fuel fuel' P bs0 bs1 (ht0 : HT0) (ht1 : HT1) r :
  fuel <= fuel' ->
  checkHuffmanTable BitStream_new fuel P bs0 bs1 ht0 ht1 = Some r ->
  checkHuffmanTable BitStream_new fuel' P bs0 bs1 ht0 ht1 = Some r.
Proof.
  intros L. unfold checkHuffmanTable, workloop.
  destruct (negb (getPosition bs0 =? getPosition bs1)); auto.
  destruct (negb (Bool.eqb (isFullDecode ht0) (isFullDecode ht1))); auto.
  destruct (isFullDecode ht0); now apply workloop_from_mono.
Qed.

Lemma then_break_mono (r r' : option (exec unit)) :
  (forall c, r = Some c -> r' = Some c) ->
  forall c, then_break r = Some c -> then_break r' = Some c.
Proof.
  intros H c. destruct r as [x|]; simpl; [|discriminate].
  now rewrite (H x eq_refl).
Qed.

Lemma select_pump_mono fuel fuel' bs0 bs1 (ht0 : HT0) (ht1 : HT1) c :
  fuel <= fuel' ->
  select_pump BitStream_new fuel bs0 bs1 ht0 ht1 = Some c ->
  select_pump BitStream_new fuel' bs0 bs1 ht0 ht1 = Some c.
Proof.
  intros L. unfold select_pump.
  destruct (skipBytes bs1 1) as [bs1'|e]; auto.
  destruct (getByte bs0) as [[selector bs0']|e]; auto.
  destruct selector; auto;
    apply then_break_mono; intros r; now apply checkHuffmanTable_mono.
Qed.

Lemma try_block_mono {fuel fuel'} bytes {c} :
  fuel <= fuel' ->
  block fuel bytes = Some c -> block fuel' bytes = Some c.
Proof.
  intros L. unfold try_block.
  destruct (try_create (I := IMPL0) HuffmanTable_default (ByteStream_new bytes))
    as [[ht0 bs0] failure0].
  destruct (try_create (I := IMPL1) HuffmanTable_default (ByteStream_new bytes))
    as [[ht1 bs1] failure1].
  repeat match goal with
         | |- context [if ?b then _ else _] => destruct b; auto
         end.
  now apply select_pump_mono.
Qed.

Lemma entry_mono {fuel fuel'} Data bytes {o} :
  fuel <= fuel' ->
  entry fuel Data bytes = Some o -> entry fuel' Data bytes = Some o.
Proof.
  intros L. unfold LLVMFuzzerTestOneInput.
  destruct (Data =? 0)%N; auto.
  destruct (block fuel bytes) as [c|] eqn:E; simpl; [|discriminate].
  now rewrite (try_block_mono bytes L E).
Qed.

(** The outcome does not depend on the fuel that reached it. *)
Lemma entry_unique {fuel fuel' Data bytes o o'} :
  entry fuel Data bytes = Some o ->
  entry fuel' Data bytes = Some o' ->
  o = o'.
Proof.
  intros H H'.
  destruct (Nat.le_ge_cases fuel fuel') as [L|L].
  - apply (entry_mono Data bytes L) in H. congruence.
  - apply (entry_mono Data bytes L) in H'. congruence.
Qed.

(** ** From the entry point to the loop *)

Local Abbreviation create0 := (createHuffmanTable (HuffmanTableImpl := IMPL0)).
Local Abbreviation create1 := (createHuffmanTable (HuffmanTableImpl := IMPL1)).

Lemma entry_block fuel {Data} bytes :
  Data <> 0%N ->
  entry fuel Data bytes = option_map finish (block fuel bytes).
Proof.
  intros N. unfold LLVMFuzzerTestOneInput.
  apply N.eqb_neq in N. now rewrite N.
Qed.

Lemma try_create_value {HT : Type} {I : HuffmanTableImpl BitStream HT}
    (ht : HT) {ht' : HT} {bs bs' : ByteStream} :
  createHuffmanTable bs = Value (ht', bs') ->
  try_create ht bs = (ht', bs', false).
Proof. unfold try_create. now intros ->. Qed.

Lemma try_create_raise {HT : Type} {I : HuffmanTableImpl BitStream HT}
    (ht : HT) (bs : ByteStream) :
  raised (createHuffmanTable (HT := HT) bs) = true ->
  try_create ht bs = (ht, bs, true).
Proof.
  unfold try_create.
  destruct (createHuffmanTable bs) as [[ht' bs']|e]; simpl; congruence.
Qed.

Lemma try_block_both_fail fuel bytes :
  raised (create0 (ByteStream_new bytes)) = true ->
  raised (create1 (ByteStream_new bytes)) = true ->
  block fuel bytes = Some (Done (Return 0)).
Proof.
  intros R0 R1. unfold try_block. cbv zeta.
  now rewrite (try_create_raise _ _ R0), (try_create_raise _ _ R1).
Qed.

Lemma try_block_one_fails fuel bytes :
  raised (create0 (ByteStream_new bytes))
    <> raised (create1 (ByteStream_new bytes)) ->
  block fuel bytes = Some (AssertFail assert_construction_failure).
Proof.
  intros N. unfold try_block, try_create.
  destruct (create0 (ByteStream_new bytes)) as [[ht0 c0]|e0];
    destruct (create1 (ByteStream_new bytes)) as [[ht1 c1]|e1];
    simpl in *; congruence.
Qed.

Lemma try_block_constructed fuel {bytes} {ht0 : HT0} {c0} {ht1 : HT1} {c1} :
  constructed bytes ht0 c0 ht1 c1 ->
  block fuel bytes =
    if negb (getPosition c0 =? getPosition c1)
    then Some (AssertFail assert_construction_position)
    else if negb (19 <=? getPosition c0)
    then Some (AssertFail assert_construction_consumed)
    else select_pump BitStream_new fuel c0 c1 ht0 ht1.
Proof.
  intros [E0 E1]. unfold try_block. cbv zeta.
  now rewrite (try_create_value _ E0), (try_create_value _ E1).
Qed.

Lemma try_block_selection fuel {bytes} {ht0 : HT0} {c0} {ht1 : HT1} {c1} :
  reaches_selection bytes ht0 c0 ht1 c1 ->
  block fuel bytes = select_pump BitStream_new fuel c0 c1 ht0 ht1.
Proof.
  intros (C & E & L). rewrite (try_block_constructed fuel C).
  apply Nat.eqb_eq in E. apply Nat.leb_le in L. now rewrite E, L.
Qed.

Lemma select_pump_dispatch fuel {bs0 bs1 bs0' bs1' selector}
    (ht0 : HT0) (ht1 : HT1) :
  skipBytes bs1 1 = Value bs1' ->
  getByte bs0 = Value (selector, bs0') ->
  select_pump BitStream_new fuel bs0 bs1 ht0 ht1 =
    match pump_of_selector selector with
    | Some P => then_break (checkHuffmanTable BitStream_new fuel P bs0' bs1' ht0 ht1)
    | None => Some ThrowRSE
    end.
Proof.
  intros E1 E0. unfold select_pump. rewrite E1, E0.
  destruct selector; reflexivity.
Qed.

Lemma try_block_check fuel {bytes P} {ht0 : HT0} {ht1 : HT1} {bs0 bs1} :
  reaches_check bytes P ht0 ht1 bs0 bs1 ->
  block fuel bytes =
    then_break (checkHuffmanTable BitStream_new fuel P bs0 bs1 ht0 ht1).
Proof.
  intros (c0 & c1 & selector & R & E1 & E0 & S).
  rewrite (try_block_selection fuel R).
  rewrite (select_pump_dispatch fuel ht0 ht1 E1 E0). now rewrite S.
Qed.

(** The second checkpoint: after the selector byte both cursors are one
    byte further. *)
Lemma reaches_check_aligned {bytes P} {ht0 : HT0} {ht1 : HT1} {bs0 bs1} :
  reaches_check bytes P ht0 ht1 bs0 bs1 ->
  getPosition bs0 = getPosition bs1.
Proof.
  intros (c0 & c1 & selector & (_ & E & _) & E1 & E0 & _).
  apply skipBytes_inv in E1 as (_ & E1 & _).
  apply getByte_inv in E0 as (_ & E0 & _).
  unfold getPosition in *. lia.
Qed.

Lemma try_block_workloop fuel {bytes P full} {ht0 : HT0} {ht1 : HT1} {bs0 bs1} :
  reaches_workloop bytes P full ht0 ht1 bs0 bs1 ->
  block fuel bytes =
    then_break (workloop BitStream_new fuel P full bs0 bs1 ht0 ht1).
Proof.
  intros (R & F0 & F1). rewrite (try_block_check fuel R).
  unfold checkHuffmanTable.
  rewrite (reaches_check_aligned R), Nat.eqb_refl, F0, F1, eqb_reflx.
  simpl. now destruct full.
Qed.

Lemma try_block_iteration fuel {bytes n P full} {ht0 : HT0} {ht1 : HT1}
    {bits0 bits1 : BitStream P} :
  reaches_iteration BitStream_new bytes n P full ht0 ht1 bits0 bits1 ->
  block (n + fuel) bytes =
    then_break (workloop_from fuel P full ht0 ht1 bits0 bits1).
Proof.
  intros (bs0 & bs1 & R & I). rewrite (try_block_workloop (n + fuel) R).
  unfold workloop. now rewrite (workloop_from_iterate fuel I).
Qed.

(** What the driver sees when the iteration reached ends the loop. *)
Lemma entry_iteration_thrown {fuel Data bytes n P full} {ht0 : HT0} {ht1 : HT1}
    {bits0 bits1 : BitStream P} {e : exception} :
  Data <> 0%N ->
  n < fuel ->
  reaches_iteration BitStream_new bytes n P full ht0 ht1 bits0 bits1 ->
  workloop_body P full ht0 ht1 bits0 bits1 = Thrown e ->
  entry fuel Data bytes = Some (Returned 0).
Proof.
  intros N L R B. rewrite (entry_block fuel bytes N).
  replace fuel with (n + S (fuel - S n)) by lia.
  rewrite (try_block_iteration _ R). simpl. now rewrite B.
Qed.

Lemma entry_iteration_assert {fuel Data bytes n P full} {ht0 : HT0} {ht1 : HT1}
    {bits0 bits1 : BitStream P} {a : assertion} :
  Data <> 0%N ->
  n < fuel ->
  reaches_iteration BitStream_new bytes n P full ht0 ht1 bits0 bits1 ->
  workloop_body P full ht0 ht1 bits0 bits1 = AssertFail a ->
  entry fuel Data bytes = Some (Aborted a).
Proof.
  intros N L R B. rewrite (entry_block fuel bytes N).
  replace fuel with (n + S (fuel - S n)) by lia.
  rewrite (try_block_iteration _ R). simpl. now rewrite B.
Qed.

(** ** How a run can end *)

Lemma workloop_from_ends fuel P full (ht0 : HT0) (ht1 : HT1)
    (bits0 bits1 : BitStream P) (r : exec unit) :
  workloop_from fuel P full ht0 ht1 bits0 bits1 = Some r ->
  (exists e, r = Thrown e) \/
  r = AssertFail assert_decode_failure \/
  r = AssertFail assert_decode_value.
Proof.
  revert bits0 bits1. induction fuel as [|fuel IH]; intros bits0 bits1; simpl.
  - discriminate.
  - destruct (workloop_body P full ht0 ht1 bits0 bits1) as [[b0 b1]|e|a|u] eqn:E.
    + apply IH.
    + intros [= <-]. eauto.
    + intros [= <-]. revert E. unfold workloop_body, try_decode.
      destruct (decode P full ht0 bits0) as [[d0 x0]|e0];
        destruct (decode P full ht1 bits1) as [[d1 x1]|e1]; simpl;
        try destruct (catch_IOException e0);
        try destruct (catch_IOException e1); simpl;
        try discriminate; try (intros [= <-]; now auto).
      destruct (d0 =? d1)%Z; simpl; try discriminate.
      intros [= <-]; auto.
    + now apply workloop_body_defined in E.
Qed.

Lemma checkHuffmanTable_ends fuel P bs0 bs1 (ht0 : HT0) (ht1 : HT1) r :
  getPosition bs0 = getPosition bs1 ->
  checkHuffmanTable BitStream_new fuel P bs0 bs1 ht0 ht1 = Some r ->
  (exists e, r = Thrown e) \/
  r = AssertFail assert_check_fullDecode \/
  r = AssertFail assert_decode_failure \/
  r = AssertFail assert_decode_value.
Proof.
  intros E. unfold checkHuffmanTable, workloop.
  rewrite E, Nat.eqb_refl. simpl.
  destruct (Bool.eqb (isFullDecode ht0) (isFullDecode ht1)); simpl.
  - destruct (isFullDecode ht0); intros H;
      apply workloop_from_ends in H; tauto.
  - intros [= <-]. auto.
Qed.

Lemma select_pump_ends fuel bs0 bs1 (ht0 : HT0) (ht1 : HT1) c :
  getPosition bs0 = getPosition bs1 ->
  select_pump BitStream_new fuel bs0 bs1 ht0 ht1 = Some c ->
  (exists e, c = Thrown e) \/
  c = AssertFail assert_check_fullDecode \/
  c = AssertFail assert_decode_failure \/
  c = AssertFail assert_decode_value.
Proof.
  intros E.
  destruct (skipBytes bs1 1) as [bs1'|e1] eqn:E1;
    [|unfold select_pump; rewrite E1; intros [= <-]; eauto].
  destruct (getByte bs0) as [[selector bs0']|e0] eqn:E0;
    [|unfold select_pump; rewrite E1, E0; intros [= <-]; eauto].
  rewrite (select_pump_dispatch fuel ht0 ht1 E1 E0).
  destruct (pump_of_selector selector) as [P|];
    [|unfold ThrowRSE; intros [= <-]; eauto].
  destruct (checkHuffmanTable BitStream_new fuel P bs0' bs1' ht0 ht1)
    as [r|] eqn:C; simpl; [|discriminate].
  apply checkHuffmanTable_ends in C.
  - intros [= <-].
    destruct C as [[e ->] | [-> | [-> | ->]]]; simpl; eauto 6.
  - apply skipBytes_inv in E1 as (_ & E1 & _).
    apply getByte_inv in E0 as (_ & E0 & _).
    unfold getPosition in *. lia.
Qed.

(** Every way the [try] block can end. *)
Lemma try_block_ends fuel bytes c :
  block fuel bytes = Some c ->
  (c = Done (Return 0) /\
   raised (create0 (ByteStream_new bytes)) = true /\
   raised (create1 (ByteStream_new bytes)) = true) \/
  (c = AssertFail assert_construction_failure /\
   raised (create0 (ByteStream_new bytes))
     <> raised (create1 (ByteStream_new bytes))) \/
  (raised (create0 (ByteStream_new bytes)) = false /\
   raised (create1 (ByteStream_new bytes)) = false /\
   ((exists e, c = Thrown e) \/
    c = AssertFail assert_construction_position \/
    c = AssertFail assert_construction_consumed \/
    c = AssertFail assert_check_fullDecode \/
    c = AssertFail assert_decode_failure \/
    c = AssertFail assert_decode_value)).
Proof.
  destruct (create0 (ByteStream_new bytes)) as [[ht0 c0]|e0] eqn:E0;
    destruct (create1 (ByteStream_new bytes)) as [[ht1 c1]|e1] eqn:E1.
  - rewrite (try_block_constructed fuel (conj E0 E1)). cbn [raised].
    destruct (getPosition c0 =? getPosition c1) eqn:Q; cbn [negb];
      [|intros [= <-]; right; right; auto 10].
    destruct (19 <=? getPosition c0); cbn [negb];
      [|intros [= <-]; right; right; auto 10].
    intros H. apply select_pump_ends in H; [|now apply Nat.eqb_eq].
    right; right. intuition.
  - rewrite try_block_one_fails by (rewrite E0, E1; discriminate).
    intros [= <-]. right; left. split; [reflexivity|discriminate].
  - rewrite try_block_one_fails by (rewrite E0, E1; discriminate).
    intros [= <-]. right; left. split; [reflexivity|discriminate].
  - rewrite try_block_both_fail by (rewrite ?E0, ?E1; reflexivity).
    intros [= <-]. left. auto.
Qed.

(** ** Detected divergence *)

Lemma entry_mode_mismatch fuel {Data bytes P} {ht0 : HT0} {ht1 : HT1}
    {bs0 bs1} :
  Data <> 0%N ->
  reaches_check bytes P ht0 ht1 bs0 bs1 ->
  isFullDecode ht0 <> isFullDecode ht1 ->
  entry fuel Data bytes = Some (Aborted assert_check_fullDecode).
Proof.
  intros N R D.
  rewrite (entry_block fuel bytes N), (try_block_check fuel R).
  unfold checkHuffmanTable.
  rewrite (reaches_check_aligned R), Nat.eqb_refl. cbn [negb].
  destruct (isFullDecode ht0), (isFullDecode ht1); simpl; congruence.
Qed.

Lemma entry_not_returned_of_aborted {fuel fuel' Data bytes a v} :
  entry fuel Data bytes = Some (Aborted a) ->
  entry fuel' Data bytes <> Some (Returned v).
Proof.
  intros H H'. pose proof (entry_unique H H'). discriminate.
Qed.

(** A check that is reached and fails ends the run in the abort of its
    assertion with any fuel that gets there, and with no fuel at all does
    the entry point return. *)
Lemma entry_divergence {bytes : list byte} {n : nat} {a : assertion}
    {Data : pointer} :
  Data <> 0%N ->
  divergence BitStream_new IMPL0 IMPL1 bytes n a ->
  (forall fuel, n < fuel -> entry fuel Data bytes = Some (Aborted a)) /\
  (forall fuel v, entry fuel Data bytes <> Some (Returned v)).
Proof.
  intros N D.
  assert (A : forall fuel, n < fuel -> entry fuel Data bytes = Some (Aborted a)).
  { intros fuel L. destruct D as [D|P ht0 ht1 bs0 bs1 R D|n P full ht0 ht1 bits0 bits1 R X0 X1 D|n P full ht0 ht1 bits0 bits1 bits0' bits1' d0 d1 R V0 V1 D].
    - rewrite (entry_block fuel bytes N).
      now rewrite (try_block_one_fails fuel bytes D).
    - exact (entry_mode_mismatch fuel N R D).
    - apply (entry_iteration_assert N L R).
      now apply workloop_body_mismatch.
    - apply (entry_iteration_assert N L R).
      rewrite (workloop_body_values V0 V1).
      apply Z.eqb_neq in D. now rewrite D. }
  split; [exact A|].
  intros fuel v. apply (entry_not_returned_of_aborted (A (S n) (Nat.lt_succ_diag_r n))).
Qed.

(** C2: in every iteration of the loop in which both decode calls
    succeed the two values are compared: when they differ the run
    aborts on the value assertion, when they are equal the loop goes on
    to the next iteration with the pumps as the decoders left them. *)
Theorem decoded_values_compared (bytes : list byte) (n : nat) (P : Pump)
    (IsFullDecode : bool) (ht0 : HT0) (ht1 : HT1)
    (bits0 bits1 bits0' bits1' : BitStream P) (d0 d1 : Z)
    (fuel : nat) (Data : pointer) :
  Data <> 0%N ->
  n < fuel ->
  reaches_iteration BitStream_new bytes n P IsFullDecode ht0 ht1 bits0 bits1 ->
  decode P IsFullDecode ht0 bits0 = Value (d0, bits0') ->
  decode P IsFullDecode ht1 bits1 = Value (d1, bits1') ->
  (d0 <> d1 -> entry fuel Data bytes = Some (Aborted assert_decode_value)) /\
  (d0 = d1 ->
   reaches_iteration BitStream_new bytes (S n) P IsFullDecode ht0 ht1
     bits0' bits1').
Proof.
  intros N L R V0 V1.
  pose proof (workloop_body_values V0 V1) as B.
  split; intros D.
  - apply (entry_iteration_assert N L R).
    apply Z.eqb_neq in D. now rewrite B, D.
  - apply Z.eqb_eq in D. rewrite D in B.
    destruct R as (bs0 & bs1 & R & I).
    exists bs0, bs1. split; [exact R|].
    exact (iterate_step I B).
Qed.

(** C3: in a step of the loop, exhaustion on either side leaves the
    body at once as an [IOException], whatever the other side does or
    would do, and the entry point returns 0; a structural failure is
    caught and recorded in that side's flag; when both sides fail
    structurally the entry point returns 0. *)
Theorem decode_failure_classes (bytes : list byte) (n : nat) (P : Pump)
    (IsFullDecode : bool) (ht0 : HT0) (ht1 : HT1)
    (bits0 bits1 : BitStream P) (fuel : nat) (Data : pointer) :
  Data <> 0%N ->
  n < fuel ->
  reaches_iteration BitStream_new bytes n P IsFullDecode ht0 ht1 bits0 bits1 ->
  (exhausted (decode P IsFullDecode ht0 bits0) = true \/
   exhausted (decode P IsFullDecode ht1 bits1) = true ->
   workloop_body P IsFullDecode ht0 ht1 bits0 bits1 = Thrown IOException /\
   entry fuel Data bytes = Some (Returned 0)) /\
  (structural_failure (decode P IsFullDecode ht0 bits0) = true ->
   try_decode P IsFullDecode ht0 bits0 = Done (None, true, bits0)) /\
  (structural_failure (decode P IsFullDecode ht1 bits1) = true ->
   try_decode P IsFullDecode ht1 bits1 = Done (None, true, bits1)) /\
  (structural_failure (decode P IsFullDecode ht0 bits0) = true ->
   structural_failure (decode P IsFullDecode ht1 bits1) = true ->
   entry fuel Data bytes = Some (Returned 0)).
Proof.
  intros N L R.
  assert (B : exhausted (decode P IsFullDecode ht0 bits0) = true \/
              exhausted (decode P IsFullDecode ht1 bits1) = true ->
              workloop_body P IsFullDecode ht0 ht1 bits0 bits1
                = Thrown IOException).
  { intros [X|X].
    - now apply workloop_body_exhausted0.
    - destruct (exhausted (decode P IsFullDecode ht0 bits0)) eqn:X0.
      + now apply workloop_body_exhausted0.
      + now apply workloop_body_exhausted1. }
  split; [|split; [|split]].
  - intros X. split; [exact (B X)|].
    exact (entry_iteration_thrown N L R (B X)).
  - apply try_decode_structural.
  - apply try_decode_structural.
  - intros S0 S1.
    exact (entry_iteration_thrown N L R
             (workloop_body_both_fail _ _ _ _ _ _ S0 S1)).
Qed.

(** ** Construction *)

Lemma exhausted_raised {A : Type} (r : Res A) :
  exhausted r = true -> raised r = true.
Proof. destruct r; simpl; congruence. Qed.

(** C4, as the code has it: an exhaustion-class failure during
    construction is caught like any other exception of the hierarchy
    and recorded in that side's failure flag; the flags are then
    compared, so that the entry point returns 0 when the other side
    failed too and aborts on the construction assertion when it did
    not. *)
Theorem construction_failures_compared (bytes : list byte) (fuel : nat)
    (Data : pointer) :
  Data <> 0%N ->
  exhausted (create0 (ByteStream_new bytes)) = true \/
  exhausted (create1 (ByteStream_new bytes)) = true ->
  (forall ht : HT0,
      exhausted (create0 (ByteStream_new bytes)) = true ->
      try_create ht (ByteStream_new bytes) = (ht, ByteStream_new bytes, true)) /\
  (forall ht : HT1,
      exhausted (create1 (ByteStream_new bytes)) = true ->
      try_create ht (ByteStream_new bytes) = (ht, ByteStream_new bytes, true)) /\
  entry fuel Data bytes =
    Some (if raised (create0 (ByteStream_new bytes))
             && raised (create1 (ByteStream_new bytes))
          then Returned 0
          else Aborted assert_construction_failure).
Proof.
  intros N X. split; [|split].
  - intros ht X0. apply try_create_raise. now apply exhausted_raised.
  - intros ht X1. apply try_create_raise. now apply exhausted_raised.
  - rewrite (entry_block fuel bytes N).
    destruct (raised (create0 (ByteStream_new bytes))) eqn:R0;
      destruct (raised (create1 (ByteStream_new bytes))) eqn:R1; simpl.
    + now rewrite (try_block_both_fail fuel bytes R0 R1).
    + rewrite try_block_one_fails; [reflexivity|congruence].
    + rewrite try_block_one_fails; [reflexivity|congruence].
    + destruct X as [X|X]; apply exhausted_raised in X; congruence.
Qed.

(** ** Strategy selection *)

(** C5: once both tables are built and the cursor checks passed, one
    byte is skipped on cursor 1 and one selector byte is read from
    cursor 0, each cursor moving on by exactly one byte over unchanged
    content; selector 0 runs the check with [BitPumpMSB], 1 with
    [BitPumpMSB32], 2 with [BitPumpJPEG]; with equal mode flags the run
    is then the loop over two pumps of that one strategy, built on the
    two cursors after the selector, and the first decode call of either
    side is made on its pump of that strategy (exhaustion there returns
    0, two different values abort, two equal values lead on); any other
    selector throws and the entry point returns 0, as it does when no
    selector byte is left. *)
Theorem pump_selection (bytes : list byte) (ht0 : HT0) (c0 : ByteStream)
    (ht1 : HT1) (c1 : ByteStream) (fuel : nat) (Data : pointer) :
  Data <> 0%N ->
  reaches_selection bytes ht0 c0 ht1 c1 ->
  match skipBytes c1 1, getByte c0 with
  | Value bs1, Value (selector, bs0) =>
      nth_error (data c0) (getPosition c0) = Some selector /\
      getPosition bs0 = getPosition c0 + 1 /\ data bs0 = data c0 /\
      getPosition bs1 = getPosition c1 + 1 /\ data bs1 = data c1 /\
      block fuel bytes =
        match selector with
        | x00 => then_break (checkHuffmanTable BitStream_new fuel BitPumpMSB bs0 bs1 ht0 ht1)
        | x01 => then_break (checkHuffmanTable BitStream_new fuel BitPumpMSB32 bs0 bs1 ht0 ht1)
        | x02 => then_break (checkHuffmanTable BitStream_new fuel BitPumpJPEG bs0 bs1 ht0 ht1)
        | _ => Some (Thrown RawspeedException)
        end /\
      (forall P,
          pump_of_selector selector = Some P ->
          isFullDecode ht0 = isFullDecode ht1 ->
          block fuel bytes =
            then_break (workloop_from fuel P (isFullDecode ht0) ht0 ht1
                          (BitStream_new P bs0) (BitStream_new P bs1)) /\
          (exhausted (decode P (isFullDecode ht0) ht0
                        (BitStream_new P bs0)) = true \/
           exhausted (decode P (isFullDecode ht0) ht1
                        (BitStream_new P bs1)) = true ->
           entry (S fuel) Data bytes = Some (Returned 0)) /\
          (forall d0 d1 x0 x1,
              decode P (isFullDecode ht0) ht0 (BitStream_new P bs0)
                = Value (d0, x0) ->
              decode P (isFullDecode ht0) ht1 (BitStream_new P bs1)
                = Value (d1, x1) ->
              (d0 <> d1 ->
               entry (S fuel) Data bytes = Some (Aborted assert_decode_value)) /\
              (d0 = d1 ->
               block (S fuel) bytes =
                 then_break (workloop_from fuel P (isFullDecode ht0)
                               ht0 ht1 x0 x1)))) /\
      (pump_of_selector selector = None ->
       entry fuel Data bytes = Some (Returned 0))
  | _, _ => entry fuel Data bytes = Some (Returned 0)
  end.
Proof.
  intros N R. rewrite (entry_block fuel bytes N), (try_block_selection fuel R).
  destruct (skipBytes c1 1) as [bs1|e1] eqn:E1;
    [|unfold select_pump; now rewrite E1].
  destruct (getByte c0) as [[selector bs0]|e0] eqn:E0;
    [|unfold select_pump; now rewrite E1, E0].
  pose proof (skipBytes_inv E1) as (D1 & P1 & _).
  pose proof (getByte_inv E0) as (D0 & P0 & S0).
  split; [exact S0|]. split; [exact P0|]. split; [exact D0|].
  split; [exact P1|]. split; [exact D1|]. split; [|split].
  - unfold select_pump. rewrite E1, E0. destruct selector; reflexivity.
  - intros P PS F.
    assert (W : reaches_workloop bytes P (isFullDecode ht0) ht0 ht1 bs0 bs1).
    { split; [|auto]. exists c0, c1, selector. auto. }
    assert (RI : reaches_iteration BitStream_new bytes 0 P (isFullDecode ht0)
                   ht0 ht1 (BitStream_new P bs0) (BitStream_new P bs1)).
    { exists bs0, bs1. split; [exact W|reflexivity]. }
    split; [|split].
    + rewrite <- (try_block_selection fuel R).
      now rewrite (try_block_workloop fuel W).
    + intros X.
      apply (entry_iteration_thrown N (Nat.lt_0_succ fuel) RI (e := IOException)).
      destruct X as [X|X].
      * now apply workloop_body_exhausted0.
      * destruct (exhausted (decode P (isFullDecode ht0) ht0
                               (BitStream_new P bs0))) eqn:X0.
        -- now apply workloop_body_exhausted0.
        -- now apply workloop_body_exhausted1.
    + intros d0 d1 x0 x1 V0 V1.
      pose proof (workloop_body_values V0 V1) as B. split; intros D.
      * apply (entry_iteration_assert N (Nat.lt_0_succ fuel) RI).
        apply Z.eqb_neq in D. now rewrite B, D.
      * apply Z.eqb_eq in D. rewrite D in B.
        rewrite (try_block_workloop (S fuel) W). unfold workloop. simpl.
        now rewrite B.
  - intros S. rewrite (select_pump_dispatch fuel ht0 ht1 E1 E0), S.
    reflexivity.
Qed.

(** C6, as the code has it: once both tables are built, the cursor
    checks passed and a selector of one of the three strategies read,
    the two full-decode flags are compared; the run aborts when they
    differ, and otherwise is the loop run with that one flag as its
    mode, every iteration of it being the loop body at that mode; when
    no selector byte is left or the selector is none of the three, the
    flags are not looked at and the entry point returns 0, whatever
    they are. *)
Theorem mode_flags_checked (bytes : list byte) (fuel : nat)
    (Data : pointer) :
  Data <> 0%N ->
  (forall P (ht0 : HT0) (ht1 : HT1) bs0 bs1,
      reaches_check bytes P ht0 ht1 bs0 bs1 ->
      (isFullDecode ht0 <> isFullDecode ht1 ->
       entry fuel Data bytes = Some (Aborted assert_check_fullDecode)) /\
      (isFullDecode ht0 = isFullDecode ht1 ->
       block fuel bytes =
         then_break (workloop_from fuel P (isFullDecode ht0) ht0 ht1
                       (BitStream_new P bs0) (BitStream_new P bs1)) /\
       forall n bits0 bits1,
         iterate n P (isFullDecode ht0) ht0 ht1
           (BitStream_new P bs0) (BitStream_new P bs1) = Some (bits0, bits1) ->
         block (n + S fuel) bytes =
           then_break
             match workloop_body P (isFullDecode ht0) ht0 ht1 bits0 bits1 with
             | Done (bits0', bits1') =>
                 workloop_from fuel P (isFullDecode ht0) ht0 ht1 bits0' bits1'
             | Thrown e => Some (Thrown e)
             | AssertFail a => Some (AssertFail a)
             | Undef u => Some (Undef u)
             end)) /\
  (forall (ht0 : HT0) c0 (ht1 : HT1) c1,
      reaches_selection bytes ht0 c0 ht1 c1 ->
      match skipBytes c1 1, getByte c0 with
      | Value _, Value (selector, _) => pump_of_selector selector = None
      | _, _ => True
      end ->
      entry fuel Data bytes = Some (Returned 0)).
Proof.
  intros N. split; [intros P ht0 ht1 bs0 bs1 R; split|].
  3:{ intros ht0 c0 ht1 c1 R U.
      rewrite (entry_block fuel bytes N), (try_block_selection fuel R).
      destruct (skipBytes c1 1) as [bs1|e1] eqn:E1;
        [|unfold select_pump; now rewrite E1].
      destruct (getByte c0) as [[selector bs0]|e0] eqn:E0;
        [|unfold select_pump; now rewrite E1, E0].
      now rewrite (select_pump_dispatch fuel ht0 ht1 E1 E0), U. }
  - intros D. exact (entry_mode_mismatch fuel N R D).
  - intros F.
    assert (W : reaches_workloop bytes P (isFullDecode ht0) ht0 ht1 bs0 bs1)
      by (split; auto).
    split.
    + now rewrite (try_block_workloop fuel W).
    + intros n bits0 bits1 I.
      assert (RI : reaches_iteration BitStream_new bytes n P (isFullDecode ht0)
                     ht0 ht1 bits0 bits1) by (exists bs0, bs1; auto).
      now rewrite (try_block_iteration (S fuel) RI).
Qed.

(** ** Cursor checkpoints *)

Lemma entry_ends fuel Data bytes o :
  entry fuel Data bytes = Some o ->
  o = Aborted assert_Data \/
  exists c, block fuel bytes = Some c /\ o = finish c.
Proof.
  unfold LLVMFuzzerTestOneInput. destruct (Data =? 0)%N.
  - intros [= <-]. auto.
  - destruct (block fuel bytes) as [c|]; simpl; [|discriminate].
    intros [= <-]. eauto.
Qed.

Lemma entry_position_mismatch fuel {Data bytes} {ht0 : HT0} {c0}
    {ht1 : HT1} {c1} :
  Data <> 0%N ->
  constructed bytes ht0 c0 ht1 c1 ->
  getPosition c0 <> getPosition c1 ->
  entry fuel Data bytes = Some (Aborted assert_construction_position).
Proof.
  intros N C D.
  rewrite (entry_block fuel bytes N), (try_block_constructed fuel C).
  apply Nat.eqb_neq in D. now rewrite D.
Qed.

(** C1, as the code has it: whenever one of the equivalence checks is
    reached and fails - the construction outcomes differ, one side of a
    decode step fails structurally and the other does not, both decode
    and the values differ, or the full-decode flags differ at the check
    of them - the run ends in the abort of that assertion with any fuel
    that gets there, no handler absorbs it, and with no fuel at all does
    the entry point return; and whenever both tables are built with
    different full-decode flags and a selector byte of 0, 1 or 2 is
    read, the run aborts, on the mode assertion or on one of the cursor
    assertions before it, and never returns. *)
Theorem divergence_aborts (bytes : list byte) (Data : pointer) :
  Data <> 0%N ->
  (forall n a,
      divergence BitStream_new IMPL0 IMPL1 bytes n a ->
      (forall fuel, n < fuel -> entry fuel Data bytes = Some (Aborted a)) /\
      (forall fuel v, entry fuel Data bytes <> Some (Returned v))) /\
  (forall (ht0 : HT0) c0 (ht1 : HT1) c1 bs0 bs1 selector P,
      constructed bytes ht0 c0 ht1 c1 ->
      skipBytes c1 1 = Value bs1 ->
      getByte c0 = Value (selector, bs0) ->
      pump_of_selector selector = Some P ->
      isFullDecode ht0 <> isFullDecode ht1 ->
      exists a,
        (a = assert_construction_position \/
         a = assert_construction_consumed \/
         a = assert_check_fullDecode) /\
        (forall fuel, entry fuel Data bytes = Some (Aborted a)) /\
        (forall fuel v, entry fuel Data bytes <> Some (Returned v))).
Proof.
  intros N. split.
  - intros n a D. exact (entry_divergence N D).
  - intros ht0 c0 ht1 c1 bs0 bs1 selector P C S1 S0 PS F.
    assert (K : exists a,
               (a = assert_construction_position \/
                a = assert_construction_consumed \/
                a = assert_check_fullDecode) /\
               forall fuel, entry fuel Data bytes = Some (Aborted a)).
    { destruct (Nat.eq_dec (getPosition c0) (getPosition c1)) as [E|D].
      - destruct (Nat.leb_spec 19 (getPosition c0)) as [L|L].
        + exists assert_check_fullDecode. split; [auto|]. intros fuel.
          assert (R : reaches_check bytes P ht0 ht1 bs0 bs1).
          { exists c0, c1, selector. repeat split; auto; apply C. }
          exact (entry_mode_mismatch fuel N R F).
        + exists assert_construction_consumed. split; [auto|]. intros fuel.
          rewrite (entry_block fuel bytes N), (try_block_constructed fuel C).
          apply Nat.eqb_eq in E. apply Nat.leb_gt in L. now rewrite E, L.
      - exists assert_construction_position. split; [auto|]. intros fuel.
        exact (entry_position_mismatch fuel N C D). }
    destruct K as (a & A & K). exists a. split; [exact A|].
    split; [exact K|].
    intros fuel v. exact (entry_not_returned_of_aborted (K 0)).
Qed.

(** C7, as the code has it: both tables are built from a cursor at
    position 0 over the bytes of the buffer, and the run is decided by
    the two cursors these constructions leave; a run gets past the
    checkpoint after construction only with the two cursors at equal
    positions, and aborts there otherwise; at the checkpoint after the
    selector byte the positions are equal again, and its assertion never
    fails. *)
Theorem cursors_aligned (bytes : list byte) (fuel : nat) (Data : pointer) :
  (getPosition (ByteStream_new bytes) = 0 /\
   data (ByteStream_new bytes) = bytes) /\
  (forall (ht0 : HT0) c0 (ht1 : HT1) c1,
      Data <> 0%N ->
      constructed bytes ht0 c0 ht1 c1 ->
      (getPosition c0 <> getPosition c1 ->
       entry fuel Data bytes = Some (Aborted assert_construction_position)) /\
      (getPosition c0 = getPosition c1 ->
       forall bs0 bs1 selector,
         skipBytes c1 1 = Value bs1 ->
         getByte c0 = Value (selector, bs0) ->
         getPosition bs0 = getPosition bs1)) /\
  (forall P (ht0 : HT0) (ht1 : HT1) bs0 bs1,
      reaches_check bytes P ht0 ht1 bs0 bs1 ->
      getPosition bs0 = getPosition bs1) /\
  entry fuel Data bytes <> Some (Aborted assert_check_position) /\
  (forall (ht0 : HT0) c0 (ht1 : HT1) c1,
      create0 {| data := bytes; pos := 0 |} = Value (ht0, c0) ->
      create1 {| data := bytes; pos := 0 |} = Value (ht1, c1) ->
      block fuel bytes =
        if negb (getPosition c0 =? getPosition c1)
        then Some (AssertFail assert_construction_position)
        else if negb (19 <=? getPosition c0)
        then Some (AssertFail assert_construction_consumed)
        else select_pump BitStream_new fuel c0 c1 ht0 ht1).
Proof.
  split; [split; reflexivity|]. split; [|split; [|split]].
  4:{ intros ht0 c0 ht1 c1 E0 E1.
      exact (try_block_constructed fuel (conj E0 E1)). }
  - intros ht0 c0 ht1 c1 N C. split.
    + exact (entry_position_mismatch fuel N C).
    + intros E bs0 bs1 selector E1 E0.
      apply skipBytes_inv in E1 as (_ & E1 & _).
      apply getByte_inv in E0 as (_ & E0 & _).
      unfold getPosition in *. lia.
  - intros P ht0 ht1 bs0 bs1. apply reaches_check_aligned.
  - intros H. apply entry_ends in H as [H|(c & B & H)]; [discriminate|].
    apply try_block_ends in B.
    destruct B as [(-> & _)|[(-> & _)|(_ & _ & [[e ->]|[->|[->|[->|[->| ->]]]]])]];
      discriminate.
Qed.

(** Whatever the constructions are: a buffer of fewer than 19 bytes never
    gets to the strategy selection or the loop - the entry point returns 0
    because both constructions failed, with whatever exception of the
    hierarchy, or aborts on one of the construction assertions; and
    when both constructions succeed, either each cursor is at the same
    position of at least 19 and the run goes on to the selection, or
    the run aborts on the position or the consumed-bytes assertion. *)
Lemma short_buffer_stops_early (bytes : list byte) (fuel : nat)
    (Data : pointer) :
  Data <> 0%N ->
  (cursor_discipline HT0 ->
   length bytes < 19 ->
   (raised (create0 (ByteStream_new bytes)) = true /\
    raised (create1 (ByteStream_new bytes)) = true /\
    entry fuel Data bytes = Some (Returned 0)) \/
   entry fuel Data bytes = Some (Aborted assert_construction_failure) \/
   entry fuel Data bytes = Some (Aborted assert_construction_position) \/
   entry fuel Data bytes = Some (Aborted assert_construction_consumed)) /\
  (forall (ht0 : HT0) c0 (ht1 : HT1) c1,
      constructed bytes ht0 c0 ht1 c1 ->
      (getPosition c0 = getPosition c1 /\
       19 <= getPosition c0 /\ 19 <= getPosition c1 /\
       block fuel bytes = select_pump BitStream_new fuel c0 c1 ht0 ht1) \/
      entry fuel Data bytes = Some (Aborted assert_construction_position) \/
      entry fuel Data bytes = Some (Aborted assert_construction_consumed)).
Proof.
  intros N.
  assert (K : forall (ht0 : HT0) c0 (ht1 : HT1) c1,
    constructed bytes ht0 c0 ht1 c1 ->
    (getPosition c0 = getPosition c1 /\
     19 <= getPosition c0 /\ 19 <= getPosition c1 /\
     block fuel bytes = select_pump BitStream_new fuel c0 c1 ht0 ht1) \/
    entry fuel Data bytes = Some (Aborted assert_construction_position) \/
    entry fuel Data bytes = Some (Aborted assert_construction_consumed)).
  { intros ht0 c0 ht1 c1 C.
    destruct (Nat.eq_dec (getPosition c0) (getPosition c1)) as [E|D].
    - destruct (Nat.leb_spec 19 (getPosition c0)) as [L|L].
      + left. repeat split; auto; [lia|].
        apply try_block_selection. repeat split; auto; apply C.
      + right; right.
        rewrite (entry_block fuel bytes N), (try_block_constructed fuel C).
        apply Nat.eqb_eq in E. apply Nat.leb_gt in L. now rewrite E, L.
    - right; left. exact (entry_position_mismatch fuel N C D). }
  split; [|exact K].
  intros CD Short.
  destruct (create0 (ByteStream_new bytes)) as [[ht0 c0]|e0] eqn:E0;
    destruct (create1 (ByteStream_new bytes)) as [[ht1 c1]|e1] eqn:E1.
  - destruct (K ht0 c0 ht1 c1 (conj E0 E1)) as [(_ & L & _)|[A|A]]; auto.
    destruct (CD (ByteStream_new bytes) ht0 c0) as (Dt & B);
      [unfold in_bounds; simpl; lia|exact E0|].
    unfold in_bounds, getSize, getPosition in *. rewrite Dt in B.
    simpl in B. lia.
  - right; left. rewrite (entry_block fuel bytes N).
    rewrite try_block_one_fails; [reflexivity|rewrite E0, E1; discriminate].
  - right; left. rewrite (entry_block fuel bytes N).
    rewrite try_block_one_fails; [reflexivity|rewrite E0, E1; discriminate].
  - left. repeat split.
    rewrite (entry_block fuel bytes N).
    rewrite try_block_both_fail; [reflexivity|now rewrite E0|now rewrite E1].
Qed.

(** ** Outcomes *)

Lemma entry_defined fuel Data bytes u :
  entry fuel Data bytes <> Some (Undefined u).
Proof.
  intros H. apply entry_ends in H as [H|(c & B & H)]; [discriminate|].
  apply try_block_ends in B.
  destruct B as [(-> & _)|[(-> & _)|(_ & _ & [[e ->]|[->|[->|[->|[->| ->]]]]])]];
    discriminate.
Qed.



(** C10: a run that returns returns 0, and it returns either because
    both constructions failed or, both having succeeded, because an
    exception left the strategy selection or the loop and was absorbed
    by the outermost handler; the end of the [try] block, and with it
    the point after the handler, is never reached; both constructions
    failing, an unknown selector and any exception out of the block
    each make the entry point return 0. *)
Theorem returns_zero (bytes : list byte) (fuel : nat) (Data : pointer) :
  (forall v, entry fuel Data bytes = Some (Returned v) ->
     v = 0%Z /\
     ((raised (create0 (ByteStream_new bytes)) = true /\
       raised (create1 (ByteStream_new bytes)) = true /\
       block fuel bytes = Some (Done (Return 0))) \/
      (exists (ht0 : HT0) c0 (ht1 : HT1) c1 e,
          constructed bytes ht0 c0 ht1 c1 /\
          select_pump BitStream_new fuel c0 c1 ht0 ht1 = Some (Thrown e) /\
          block fuel bytes = Some (Thrown e)))) /\
  block fuel bytes <> Some (Done FallThrough) /\
  entry fuel Data bytes <> Some (Undefined unreachable) /\
  (Data <> 0%N ->
   (raised (create0 (ByteStream_new bytes)) = true ->
    raised (create1 (ByteStream_new bytes)) = true ->
    entry fuel Data bytes = Some (Returned 0)) /\
   (forall (ht0 : HT0) c0 (ht1 : HT1) c1 bs0 bs1 selector,
       reaches_selection bytes ht0 c0 ht1 c1 ->
       skipBytes c1 1 = Value bs1 ->
       getByte c0 = Value (selector, bs0) ->
       pump_of_selector selector = None ->
       entry fuel Data bytes = Some (Returned 0)) /\
   (forall e, block fuel bytes = Some (Thrown e) ->
              entry fuel Data bytes = Some (Returned 0))).
Proof.
  split; [|split; [|split]].
  - intros v H. apply entry_ends in H as [H|(c & B & H)]; [discriminate|].
    pose proof (try_block_ends _ _ _ B) as T.
    destruct T as [(-> & R0 & R1)|[(-> & _)|(R0 & R1 & T)]].
    + injection H as ->. auto.
    + discriminate.
    + destruct T as [[e ->]|[->|[->|[->|[->| ->]]]]]; try discriminate.
      injection H as ->. split; [reflexivity|]. right.
      destruct (create0 (ByteStream_new bytes)) as [[ht0 c0]|e0] eqn:E0;
        [|discriminate].
      destruct (create1 (ByteStream_new bytes)) as [[ht1 c1]|e1] eqn:E1;
        [|discriminate].
      exists ht0, c0, ht1, c1, e. repeat split; auto.
      rewrite (try_block_constructed fuel (conj E0 E1)) in B.
      destruct (negb (getPosition c0 =? getPosition c1)); [discriminate|].
      destruct (negb (19 <=? getPosition c0)); [discriminate|].
      exact B.
  - intros B. apply try_block_ends in B.
    destruct B as [(B & _)|[(B & _)|(_ & _ & [[e B]|[B|[B|[B|[B|B]]]]])]];
      discriminate.
  - apply entry_defined.
  - intros N. split; [|split].
    + intros R0 R1. rewrite (entry_block fuel bytes N).
      now rewrite (try_block_both_fail fuel bytes R0 R1).
    + intros ht0 c0 ht1 c1 bs0 bs1 selector R E1 E0 S.
      rewrite (entry_block fuel bytes N), (try_block_selection fuel R).
      now rewrite (select_pump_dispatch fuel ht0 ht1 E1 E0), S.
    + intros e B. rewrite (entry_block fuel bytes N). now rewrite B.
Qed.

(** ** Where a run ends *)

Lemma workloop_body_done_inv {P full} {ht0 : HT0} {ht1 : HT1}
    {bits0 bits1 x0 x1 : BitStream P} :
  workloop_body P full ht0 ht1 bits0 bits1 = Done (x0, x1) ->
  exists d,
    decode P full ht0 bits0 = Value (d, x0) /\
    decode P full ht1 bits1 = Value (d, x1).
Proof.
  unfold workloop_body, try_decode.
  destruct (decode P full ht0 bits0) as [[d0 y0]|e0];
    destruct (decode P full ht1 bits1) as [[d1 y1]|e1]; simpl;
    try destruct (catch_IOException e0); try destruct (catch_IOException e1);
    simpl; try discriminate.
  destruct (d0 =? d1)%Z eqn:E; simpl; [|discriminate].
  intros [= <- <-]. apply Z.eqb_eq in E. subst d1. eauto.
Qed.

Lemma workloop_body_thrown_inv {P full} {ht0 : HT0} {ht1 : HT1}
    {bits0 bits1 : BitStream P} {e : exception} :
  workloop_body P full ht0 ht1 bits0 bits1 = Thrown e ->
  exhausted (decode P full ht0 bits0) = true \/
  exhausted (decode P full ht1 bits1) = true \/
  (structural_failure (decode P full ht0 bits0) = true /\
   structural_failure (decode P full ht1 bits1) = true).
Proof.
  unfold workloop_body, try_decode.
  destruct (decode P full ht0 bits0) as [[d0 y0]|e0];
    destruct (decode P full ht1 bits1) as [[d1 y1]|e1]; simpl;
    try destruct (catch_IOException e0); try destruct (catch_IOException e1);
    simpl; auto; try discriminate.
  destruct (d0 =? d1)%Z; discriminate.
Qed.

Lemma workloop_body_assert_inv {P full} {ht0 : HT0} {ht1 : HT1}
    {bits0 bits1 : BitStream P} {a : assertion} :
  workloop_body P full ht0 ht1 bits0 bits1 = AssertFail a ->
  (a = assert_decode_failure /\
   exhausted (decode P full ht0 bits0) = false /\
   exhausted (decode P full ht1 bits1) = false /\
   structural_failure (decode P full ht0 bits0)
     <> structural_failure (decode P full ht1 bits1)) \/
  (a = assert_decode_value /\
   exists d0 d1 x0 x1,
     decode P full ht0 bits0 = Value (d0, x0) /\
     decode P full ht1 bits1 = Value (d1, x1) /\
     d0 <> d1).
Proof.
  unfold workloop_body, try_decode.
  destruct (decode P full ht0 bits0) as [[d0 y0]|e0];
    destruct (decode P full ht1 bits1) as [[d1 y1]|e1]; simpl;
    try destruct (catch_IOException e0); try destruct (catch_IOException e1);
    simpl; try discriminate;
    try (intros [= <-]; left; repeat split; discriminate).
  destruct (d0 =? d1)%Z eqn:E; simpl; [discriminate|].
  intros [= <-]. right. split; [reflexivity|].
  apply Z.eqb_neq in E. eauto 8.
Qed.

(** A loop that ended ran some iterations to their end and left the next
    one by an exception or a failed assertion. *)
Lemma workloop_from_last {fuel P full} {ht0 : HT0} {ht1 : HT1}
    {bits0 bits1 : BitStream P} {r : exec unit} :
  workloop_from fuel P full ht0 ht1 bits0 bits1 = Some r ->
  exists n b0 b1,
    n < fuel /\
    iterate n P full ht0 ht1 bits0 bits1 = Some (b0, b1) /\
    ((exists e, r = Thrown e /\
                workloop_body P full ht0 ht1 b0 b1 = Thrown e) \/
     (exists a, r = AssertFail a /\
                workloop_body P full ht0 ht1 b0 b1 = AssertFail a)).
Proof.
  revert bits0 bits1. induction fuel as [|fuel IH]; intros bits0 bits1; simpl.
  - discriminate.
  - destruct (workloop_body P full ht0 ht1 bits0 bits1) as [[x0 x1]|e|a|u] eqn:B.
    + intros H. destruct (IH _ _ H) as (n & b0 & b1 & L & I & E).
      exists (S n), b0, b1. split; [lia|]. split; [|exact E].
      simpl. now rewrite B.
    + intros [= <-]. exists 0, bits0, bits1.
      split; [lia|]. split; [reflexivity|]. left. eauto.
    + intros [= <-]. exists 0, bits0, bits1.
      split; [lia|]. split; [reflexivity|]. right. eauto.
    + now apply workloop_body_defined in B.
Qed.

Lemma then_break_inv {r : option (exec unit)} {c : exec completion} :
  then_break r = Some c ->
  (exists e, r = Some (Thrown e) /\ c = Thrown e) \/
  (exists a, r = Some (AssertFail a) /\ c = AssertFail a) \/
  (exists u, r = Some (Undef u) /\ c = Undef u) \/
  (r = Some (Done tt) /\ c = Done FallThrough).
Proof.
  destruct r as [[[]|e|a|u]|]; simpl; try discriminate; intros [= <-]; eauto 8.
Qed.

(** The selection either throws before any table is used, or calls the
    check for the strategy of the selector it read. *)
Lemma select_pump_inv {fuel c0 c1} {ht0 : HT0} {ht1 : HT1} {c} :
  select_pump BitStream_new fuel c0 c1 ht0 ht1 = Some c ->
  (exists e, c = Thrown e /\
     select_pump BitStream_new 0 c0 c1 ht0 ht1 = Some (Thrown e)) \/
  (exists bs0 bs1 selector P,
     skipBytes c1 1 = Value bs1 /\
     getByte c0 = Value (selector, bs0) /\
     pump_of_selector selector = Some P /\
     then_break (checkHuffmanTable BitStream_new fuel P bs0 bs1 ht0 ht1)
       = Some c).
Proof.
  destruct (skipBytes c1 1) as [bs1|e1] eqn:E1;
    [|unfold select_pump; rewrite E1; intros [= <-]; left; eauto].
  destruct (getByte c0) as [[selector bs0]|e0] eqn:E0;
    [|unfold select_pump; rewrite E1, E0; intros [= <-]; left; eauto].
  rewrite (select_pump_dispatch fuel ht0 ht1 E1 E0).
  destruct (pump_of_selector selector) as [P|] eqn:S.
  - intros H. right. exists bs0, bs1, selector, P. auto.
  - intros [= <-]. left. exists RawspeedException. split; [reflexivity|].
    now rewrite (select_pump_dispatch 0 ht0 ht1 E1 E0), S.
Qed.

(** X1: every abort is a genuine finding.  A run that aborts was called
    with a null pointer, or built both tables and found their cursors
    apart or short of 19 bytes, or reached one of the equivalence checks
    with the two sides differing in what that check compares. *)
Theorem abort_is_divergence (fuel : nat) (Data : pointer) (bytes : list byte)
    (a : assertion) :
  entry fuel Data bytes = Some (Aborted a) ->
  (a = assert_Data /\ Data = 0%N) \/
  (exists (ht0 : HT0) c0 (ht1 : HT1) c1,
      constructed bytes ht0 c0 ht1 c1 /\
      ((a = assert_construction_position /\
        getPosition c0 <> getPosition c1) \/
       (a = assert_construction_consumed /\
        getPosition c0 = getPosition c1 /\ getPosition c0 < 19))) \/
  (exists n, divergence BitStream_new IMPL0 IMPL1 bytes n a).
Proof.
  unfold LLVMFuzzerTestOneInput.
  destruct (Data =? 0)%N eqn:D.
  { intros [= <-]. left. apply N.eqb_eq in D. auto. }
  destruct (block fuel bytes) as [c|] eqn:B; simpl; [|discriminate].
  intros [= F]. right.
  assert (C : c = AssertFail a).
  { destruct c as [[v|]|e|a'|u]; simpl in F; congruence. }
  subst c.
  destruct (create0 (ByteStream_new bytes)) as [[ht0 c0]|e0] eqn:E0;
    destruct (create1 (ByteStream_new bytes)) as [[ht1 c1]|e1] eqn:E1.
  - rewrite (try_block_constructed fuel (conj E0 E1)) in B.
    destruct (getPosition c0 =? getPosition c1) eqn:Q; cbn [negb] in B.
    2:{ injection B as <-. left. exists ht0, c0, ht1, c1.
        apply Nat.eqb_neq in Q. split; [split|]; auto. }
    apply Nat.eqb_eq in Q.
    destruct (19 <=? getPosition c0) eqn:L; cbn [negb] in B.
    2:{ injection B as <-. left. exists ht0, c0, ht1, c1.
        apply Nat.leb_gt in L. split; [split|]; auto. }
    apply Nat.leb_le in L. right.
    apply select_pump_inv in B
      as [(e & [=] & _)|(bs0 & bs1 & selector & P & S1 & S0 & PS & B)].
    assert (R : reaches_check bytes P ht0 ht1 bs0 bs1).
    { exists c0, c1, selector. repeat split; auto. }
    apply then_break_inv in B
      as [(e & _ & [=])|[(a' & B & [= <-])|[(u & _ & [=])|(_ & [=])]]].
    unfold checkHuffmanTable in B.
    rewrite (reaches_check_aligned R), Nat.eqb_refl in B. cbn [negb] in B.
    destruct (Bool.eqb (isFullDecode ht0) (isFullDecode ht1)) eqn:M;
      cbn [negb] in B.
    2:{ injection B as <-. exists 0. eapply mode_diverges; [exact R|].
        intros X. rewrite X, eqb_reflx in M. discriminate. }
    apply eqb_prop in M.
    assert (W : workloop_from fuel P (isFullDecode ht0) ht0 ht1
                  (BitStream_new P bs0) (BitStream_new P bs1)
                = Some (AssertFail a)).
    { revert B. unfold workloop. now destruct (isFullDecode ht0). }
    apply workloop_from_last in W
      as (n & b0 & b1 & _ & I & [(e & [=] & _)|(a' & [= <-] & W)]).
    assert (RI : reaches_iteration BitStream_new bytes n P (isFullDecode ht0)
                   ht0 ht1 b0 b1).
    { exists bs0, bs1. repeat split; auto. }
    exists n.
    apply workloop_body_assert_inv in W
      as [(-> & X0 & X1 & N)|(-> & d0 & d1 & x0 & x1 & V0 & V1 & N)].
    + eapply failure_diverges; eassumption.
    + eapply value_diverges; eassumption.
  - rewrite try_block_one_fails in B by (rewrite E0, E1; discriminate).
    injection B as <-. right. exists 0. apply construction_diverges.
    rewrite E0, E1. discriminate.
  - rewrite try_block_one_fails in B by (rewrite E0, E1; discriminate).
    injection B as <-. right. exists 0. apply construction_diverges.
    rewrite E0, E1. discriminate.
  - rewrite try_block_both_fail in B by (rewrite ?E0, ?E1; reflexivity).
    discriminate.
Qed.

(** X2: a run that started the loop and returned did so after the two
    decoders agreed on every value so far: some number of iterations ran
    to their end, and in the next one a side ran out of bits or both
    sides rejected the code. *)
Theorem return_after_agreement (fuel : nat) (Data : pointer)
    (bytes : list byte) (P : Pump) (IsFullDecode : bool)
    (ht0 : HT0) (ht1 : HT1) (bs0 bs1 : ByteStream) (v : Z) :
  reaches_workloop bytes P IsFullDecode ht0 ht1 bs0 bs1 ->
  entry fuel Data bytes = Some (Returned v) ->
  exists n bits0 bits1,
    n < fuel /\
    reaches_iteration BitStream_new bytes n P IsFullDecode ht0 ht1 bits0 bits1 /\
    (exhausted (decode P IsFullDecode ht0 bits0) = true \/
     exhausted (decode P IsFullDecode ht1 bits1) = true \/
     (structural_failure (decode P IsFullDecode ht0 bits0) = true /\
      structural_failure (decode P IsFullDecode ht1 bits1) = true)).
Proof.
  intros R. unfold LLVMFuzzerTestOneInput.
  destruct (Data =? 0)%N; [discriminate|].
  rewrite (try_block_workloop fuel R). unfold workloop.
  destruct (workloop_from fuel P IsFullDecode ht0 ht1
              (BitStream_new P bs0) (BitStream_new P bs1)) as [r|] eqn:W;
    simpl; [|discriminate].
  apply workloop_from_last in W
    as (n & b0 & b1 & L & I & [(e & -> & W)|(a & -> & _)]);
    [|discriminate].
  intros _. exists n, b0, b1. split; [exact L|]. split.
  - exists bs0, bs1. auto.
  - exact (workloop_body_thrown_inv W).
Qed.

(** X3: the loop keeps the two decoders in step.  [n] iterations run to
    their end exactly when each decoder, run on its own, decodes [n]
    values from its pump and the two lists of values are the same; the
    pumps the loop is left with are the ones the single runs end in. *)
Theorem lockstep_decoding (n : nat) (P : Pump) (IsFullDecode : bool)
    (ht0 : HT0) (ht1 : HT1) (bits0 bits1 bits0' bits1' : BitStream P) :
  iterate n P IsFullDecode ht0 ht1 bits0 bits1 = Some (bits0', bits1') <->
  exists ds,
    decode_run n P IsFullDecode ht0 bits0 = Some (ds, bits0') /\
    decode_run n P IsFullDecode ht1 bits1 = Some (ds, bits1').
Proof.
  revert bits0 bits1. induction n as [|n IH]; intros bits0 bits1; simpl.
  - split.
    + intros [= -> ->]. exists []. auto.
    + intros (ds & [= _ ->] & [= _ ->]). reflexivity.
  - split.
    + destruct (workloop_body P IsFullDecode ht0 ht1 bits0 bits1)
        as [[x0 x1]|e|a|u] eqn:B; try discriminate.
      apply workloop_body_done_inv in B as (d & -> & ->).
      intros I. apply IH in I as (ds & -> & ->). exists (d :: ds). auto.
    + intros (ds & R0 & R1).
      destruct (decode P IsFullDecode ht0 bits0) as [[d0 x0]|e0] eqn:E0;
        [|discriminate].
      destruct (decode P IsFullDecode ht1 bits1) as [[d1 x1]|e1] eqn:E1;
        [|discriminate].
      destruct (decode_run n P IsFullDecode ht0 x0) as [[ds0 y0]|] eqn:D0;
        [|discriminate].
      destruct (decode_run n P IsFullDecode ht1 x1) as [[ds1 y1]|] eqn:D1;
        [|discriminate].
      injection R0 as <- <-. injection R1 as -> -> <-.
      rewrite (workloop_body_values E0 E1), Z.eqb_refl.
      apply IH. exists ds0. auto.
Qed.

(** ** The cursors the pumps are built on *)

Lemma ByteStream_new_in_bounds (bytes : list byte) :
  in_bounds (ByteStream_new bytes).
Proof. apply Nat.le_0_l. Qed.

Lemma ByteStream_ext (a b : ByteStream) :
  data a = data b -> pos a = pos b -> a = b.
Proof. destruct a, b; simpl. now intros -> ->. Qed.


(** X5: the loop needs 20 bytes.  On a shorter buffer, with table
    construction on side 0 that keeps to its buffer, no check and no
    decode call is ever made: the run ends before the loop, the same with
    any fuel, returning 0 or aborting on a construction assertion. *)
Theorem no_decode_below_20_bytes (bytes : list byte) (fuel : nat)
    (Data : pointer) :
  cursor_discipline HT0 ->
  length bytes < 20 ->
  Data <> 0%N ->
  (forall P (ht0 : HT0) (ht1 : HT1) bs0 bs1,
      ~ reaches_check bytes P ht0 ht1 bs0 bs1) /\
  entry fuel Data bytes = entry 0 Data bytes /\
  (entry 0 Data bytes = Some (Returned 0) \/
   entry 0 Data bytes = Some (Aborted assert_construction_failure) \/
   entry 0 Data bytes = Some (Aborted assert_construction_position) \/
   entry 0 Data bytes = Some (Aborted assert_construction_consumed)).
Proof.
  intros D0 Short N.
  assert (NR : forall P (ht0 : HT0) (ht1 : HT1) bs0 bs1,
             ~ reaches_check bytes P ht0 ht1 bs0 bs1).
  { intros P ht0 ht1 bs0 bs1
      (c0 & c1 & selector & ((E0 & _) & _ & L) & _ & S0 & _).
    destruct (D0 _ _ _ (ByteStream_new_in_bounds bytes) E0) as (A0 & _). simpl in A0.
    apply getByte_inv in S0 as (_ & _ & Z0).
    assert (Z : nth_error (data c0) (pos c0) <> None) by congruence.
    apply nth_error_Some in Z.
    unfold getPosition in *. rewrite A0 in Z. lia. }
  split; [exact NR|].
  assert (K : forall f, exists c,
             block f bytes = Some c /\
             block 0 bytes = Some c /\
             (c = Done (Return 0) \/ (exists e, c = Thrown e) \/
              c = AssertFail assert_construction_failure \/
              c = AssertFail assert_construction_position \/
              c = AssertFail assert_construction_consumed)).
  { intros f.
    destruct (create0 (ByteStream_new bytes)) as [[ht0 c0]|e0] eqn:E0;
      destruct (create1 (ByteStream_new bytes)) as [[ht1 c1]|e1] eqn:E1.
    - rewrite !(try_block_constructed _ (conj E0 E1)).
      destruct (getPosition c0 =? getPosition c1) eqn:Q; cbn [negb];
        [|eauto 10].
      destruct (19 <=? getPosition c0) eqn:L; cbn [negb]; [|eauto 10].
      apply Nat.eqb_eq in Q. apply Nat.leb_le in L.
      destruct (skipBytes c1 1) as [bs1|x1] eqn:S1;
        [|unfold select_pump; rewrite S1; eauto 10].
      destruct (getByte c0) as [[selector bs0]|x0] eqn:S0;
        [|unfold select_pump; rewrite S1, S0; eauto 10].
      rewrite !(select_pump_dispatch _ ht0 ht1 S1 S0).
      destruct (pump_of_selector selector) as [P|] eqn:PS;
        [|unfold ThrowRSE; eauto 10].
      exfalso. apply (NR P ht0 ht1 bs0 bs1).
      exists c0, c1, selector. repeat split; auto.
    - rewrite !try_block_one_fails by (rewrite E0, E1; discriminate).
      eauto 10.
    - rewrite !try_block_one_fails by (rewrite E0, E1; discriminate).
      eauto 10.
    - rewrite !try_block_both_fail by (rewrite ?E0, ?E1; reflexivity).
      eauto 10. }
  rewrite !(entry_block _ bytes N).
  destruct (K fuel) as (c & B & B0 & C). rewrite B, B0. split; [reflexivity|].
  simpl. destruct C as [->|[(e & ->)|[->|[->| ->]]]]; simpl; auto.
Qed.

(** ** Implementations that agree *)

Section Agreement.

(** Tables that stand for the same code. *)
Variable related : HT0 -> HT1 -> Prop.

Hypothesis create_agree :
  forall bs,
    match create0 bs, create1 bs with
    | Value (ht0, c0), Value (ht1, c1) => c0 = c1 /\ related ht0 ht1
    | Raise _, Raise _ => True
    | _, _ => False
    end.

Hypothesis mode_agree :
  forall ht0 ht1, related ht0 ht1 -> isFullDecode ht0 = isFullDecode ht1.

Hypothesis decode_agree :
  forall ht0 ht1, related ht0 ht1 ->
  forall P full (bits : BitStream P),
    exhausted (decode P full ht0 bits) = true \/
    exhausted (decode P full ht1 bits) = true \/
    (structural_failure (decode P full ht0 bits) = true /\
     structural_failure (decode P full ht1 bits) = true) \/
    (exists d bits', decode P full ht0 bits = Value (d, bits') /\
                     decode P full ht1 bits = Value (d, bits')).

Lemma workloop_from_agree fuel P full (ht0 : HT0) (ht1 : HT1)
    (bits : BitStream P) (r : exec unit) :
  related ht0 ht1 ->
  workloop_from fuel P full ht0 ht1 bits bits = Some r ->
  exists e, r = Thrown e.
Proof.
  intros R. revert bits. induction fuel as [|fuel IH]; intros bits; simpl.
  - discriminate.
  - destruct (decode_agree _ _ R P full bits)
      as [X|[X|[(S0 & S1)|(d & bits' & V0 & V1)]]].
    + rewrite (workloop_body_exhausted0 _ _ _ _ _ _ X).
      intros [= <-]. eauto.
    + destruct (exhausted (decode P full ht0 bits)) eqn:X0.
      * rewrite (workloop_body_exhausted0 _ _ _ _ _ _ X0).
        intros [= <-]. eauto.
      * rewrite (workloop_body_exhausted1 _ _ _ _ _ _ X0 X).
        intros [= <-]. eauto.
    + rewrite (workloop_body_both_fail _ _ _ _ _ _ S0 S1).
      intros [= <-]. eauto.
    + rewrite (workloop_body_values V0 V1), Z.eqb_refl. apply IH.
Qed.

(** With implementations that agree, a run that ends does not end on an
    equivalence check. *)
Lemma agreement_excludes_findings (fuel : nat) (Data : pointer)
    (bytes : list byte) (o : outcome) :
  Data <> 0%N ->
  entry fuel Data bytes = Some o ->
  o = Returned 0 \/ o = Aborted assert_construction_consumed.
Proof.
  intros N. rewrite (entry_block fuel bytes N).
  destruct (block fuel bytes) as [c|] eqn:B; simpl; [|discriminate].
  intros [= <-].
  pose proof (create_agree (ByteStream_new bytes)) as A.
  destruct (create0 (ByteStream_new bytes)) as [[ht0 c0]|e0] eqn:E0;
    destruct (create1 (ByteStream_new bytes)) as [[ht1 c1]|e1] eqn:E1;
    try contradiction.
  - destruct A as (<- & R).
    rewrite (try_block_constructed fuel (conj E0 E1)), Nat.eqb_refl in B.
    cbn [negb] in B.
    destruct (19 <=? getPosition c0); cbn [negb] in B;
      [|injection B as <-; auto].
    apply select_pump_inv in B
      as [(e & -> & _)|(bs0 & bs1 & selector & P & S1 & S0 & PS & B)];
      [auto|].
    assert (E : bs0 = bs1).
    { pose proof (skipBytes_inv S1) as (X1 & Y1 & _).
      pose proof (getByte_inv S0) as (X0 & Y0 & _).
      apply ByteStream_ext; congruence. }
    subst bs1. unfold checkHuffmanTable, workloop in B.
    rewrite Nat.eqb_refl, (mode_agree _ _ R), eqb_reflx in B.
    cbn [negb] in B.
    assert (W : exists r e, r = Thrown e /\ then_break (Some r) = Some c).
    { destruct (isFullDecode ht1);
        destruct (workloop_from fuel P _ ht0 ht1 _ _) as [r|] eqn:W;
        try discriminate;
        destruct (workloop_from_agree _ _ _ _ _ _ _ R W) as (e & ->); eauto. }
    destruct W as (r & e & -> & W). injection W as <-. auto.
  - rewrite try_block_both_fail in B by (rewrite ?E0, ?E1; reflexivity).
    injection B as <-. auto.
Qed.

End Agreement.

(** ** The two sides *)

Lemma workloop_body_swap P full (ht0 : HT0) (ht1 : HT1)
    (bits0 bits1 : BitStream P) :
  workloop_body (IMPL0 := IMPL1) (IMPL1 := IMPL0) P full ht1 ht0 bits1 bits0 =
  (x <- workloop_body P full ht0 ht1 bits0 bits1 ;; Done (snd x, fst x)).
Proof.
  unfold workloop_body, try_decode.
  destruct (decode P full ht0 bits0) as [[d0 x0]|[]];
    destruct (decode P full ht1 bits1) as [[d1 x1]|[]]; simpl;
    try reflexivity.
  rewrite (Z.eqb_sym d1 d0). now destruct (d0 =? d1)%Z.
Qed.

Lemma workloop_from_swap fuel P full (ht0 : HT0) (ht1 : HT1)
    (bits0 bits1 : BitStream P) :
  workloop_from (IMPL0 := IMPL1) (IMPL1 := IMPL0) fuel P full ht1 ht0
    bits1 bits0 =
  workloop_from fuel P full ht0 ht1 bits0 bits1.
Proof.
  revert bits0 bits1. induction fuel as [|fuel IH]; intros bits0 bits1;
    simpl; [reflexivity|].
  rewrite workloop_body_swap.
  destruct (workloop_body P full ht0 ht1 bits0 bits1) as [[x0 x1]|e|a|u];
    simpl; auto.
Qed.

Lemma checkHuffmanTable_swap fuel P bs0 bs1 (ht0 : HT0) (ht1 : HT1) :
  checkHuffmanTable BitStream_new (IMPL0 := IMPL1) (IMPL1 := IMPL0)
    fuel P bs1 bs0 ht1 ht0 =
  checkHuffmanTable BitStream_new fuel P bs0 bs1 ht0 ht1.
Proof.
  unfold checkHuffmanTable, workloop.
  rewrite (Nat.eqb_sym (getPosition bs1)).
  destruct (negb (getPosition bs0 =? getPosition bs1)); [reflexivity|].
  destruct (isFullDecode ht0), (isFullDecode ht1); simpl;
    try reflexivity; apply workloop_from_swap.
Qed.

Lemma select_pump_swap fuel c (ht0 : HT0) (ht1 : HT1) :
  select_pump BitStream_new (IMPL0 := IMPL1) (IMPL1 := IMPL0)
    fuel c c ht1 ht0 =
  select_pump BitStream_new fuel c c ht0 ht1.
Proof.
  unfold select_pump.
  destruct (skipBytes c 1) as [bs1|e1] eqn:S1; [|reflexivity].
  destruct (getByte c) as [[selector bs0]|e0] eqn:S0; [|reflexivity].
  assert (E : bs0 = bs1).
  { pose proof (skipBytes_inv S1) as (X1 & Y1 & _).
    pose proof (getByte_inv S0) as (X0 & Y0 & _).
    apply ByteStream_ext; congruence. }
  subst bs1.
  destruct selector; try reflexivity; now rewrite checkHuffmanTable_swap.
Qed.

(** X8: the verdict does not depend on which implementation is side 0.
    With table construction that keeps to its buffer on both sides, the
    harness run with the two implementations exchanged ends as the
    original run does, for every buffer and every fuel. *)
Theorem sides_exchangeable (fuel : nat) (Data : pointer) (bytes : list byte) :
  cursor_discipline HT0 ->
  cursor_discipline HT1 ->
  LLVMFuzzerTestOneInput BitStream_new (IMPL0 := IMPL1) (IMPL1 := IMPL0)
    fuel Data bytes
  = entry fuel Data bytes.
Proof.
  intros D0 D1. unfold LLVMFuzzerTestOneInput.
  destruct (Data =? 0)%N; [reflexivity|]. f_equal.
  unfold try_block, try_create. cbv zeta.
  destruct (create0 (ByteStream_new bytes)) as [[ht0 c0]|e0] eqn:E0;
    destruct (create1 (ByteStream_new bytes)) as [[ht1 c1]|e1] eqn:E1;
    try reflexivity.
  cbn [Bool.eqb negb orb].
  rewrite (Nat.eqb_sym (getPosition c1)).
  destruct (getPosition c0 =? getPosition c1) eqn:Q; cbn [negb];
    [|reflexivity].
  apply Nat.eqb_eq in Q.
  destruct (D0 _ _ _ (ByteStream_new_in_bounds bytes) E0) as (A0 & _).
  destruct (D1 _ _ _ (ByteStream_new_in_bounds bytes) E1) as (A1 & _).
  assert (E : c1 = c0) by (apply ByteStream_ext; [congruence|now symmetry]).
  subst c1.
  destruct (negb (19 <=? getPosition c0)); [reflexivity|].
  apply select_pump_swap.
Qed.

(** ** Termination *)

(** The loop has no bound of its own.  It ends on every buffer as soon as
    a successful decode on side 0 uses up some of its pump. *)
Section Termination.

Variable remaining : forall P : Pump, BitStream P -> nat.

Hypothesis decode_progress :
  forall P full (ht0 : HT0) (bits bits' : BitStream P) (d : Z),
    decode P full ht0 bits = Value (d, bits') ->
    remaining P bits' < remaining P bits.

Lemma workloop_body_progress P full (ht0 : HT0) (ht1 : HT1)
    (bits0 bits1 bits0' bits1' : BitStream P) :
  workloop_body P full ht0 ht1 bits0 bits1 = Done (bits0', bits1') ->
  remaining P bits0' < remaining P bits0.
Proof.
  unfold workloop_body, try_decode.
  destruct (decode P full ht0 bits0) as [[d0 x0]|e0] eqn:E0.
  - destruct (decode P full ht1 bits1) as [[d1 x1]|e1]; simpl.
    + destruct (d0 =? d1)%Z; simpl; [|discriminate].
      intros [= <- _]. exact (decode_progress _ _ _ _ _ _ E0).
    + destruct (catch_IOException e1); discriminate.
  - destruct (catch_IOException e0); simpl; [discriminate|].
    destruct (decode P full ht1 bits1) as [[d1 x1]|e1]; simpl;
      [discriminate|].
    destruct (catch_IOException e1); discriminate.
Qed.

Lemma workloop_from_terminates P full (ht0 : HT0) (ht1 : HT1)
    (bits0 bits1 : BitStream P) :
  exists r,
    workloop_from (S (remaining P bits0)) P full ht0 ht1 bits0 bits1 = Some r.
Proof.
  remember (remaining P bits0) as m eqn:M.
  revert bits0 bits1 M.
  induction m as [m IH] using lt_wf_ind. intros bits0 bits1 M.
  cbn [workloop_from].
  destruct (workloop_body P full ht0 ht1 bits0 bits1) as [[b0 b1]|e|a|u] eqn:B;
    eauto.
  pose proof (workloop_body_progress _ _ _ _ _ _ _ _ B) as L.
  destruct (IH (remaining P b0) ltac:(lia) b0 b1 eq_refl) as (r & R).
  exists r. apply (workloop_from_mono (S (remaining P b0))); [lia|exact R].
Qed.

(** With such decoders every call of the entry point ends. *)
Lemma entry_terminates (Data : pointer) (bytes : list byte) :
  exists fuel o, entry fuel Data bytes = Some o.
Proof.
  unfold LLVMFuzzerTestOneInput.
  destruct (Data =? 0)%N; [exists 0; eauto|].
  assert (T : exists fuel c, block fuel bytes = Some c).
  { destruct (create0 (ByteStream_new bytes)) as [[ht0 c0]|e0] eqn:E0;
      destruct (create1 (ByteStream_new bytes)) as [[ht1 c1]|e1] eqn:E1.
    - assert (S : exists fuel c,
                 select_pump BitStream_new fuel c0 c1 ht0 ht1 = Some c).
      { destruct (skipBytes c1 1) as [bs1|x1] eqn:S1;
          [|exists 0; unfold select_pump; rewrite S1; eauto].
        destruct (getByte c0) as [[selector bs0]|x0] eqn:S0;
          [|exists 0; unfold select_pump; rewrite S1, S0; eauto].
        destruct (pump_of_selector selector) as [P|] eqn:PS;
          [|exists 0; rewrite (select_pump_dispatch 0 ht0 ht1 S1 S0), PS; eauto].
        destruct (workloop_from_terminates P (isFullDecode ht0) ht0 ht1
                    (BitStream_new P bs0) (BitStream_new P bs1)) as (r & R).
        exists (S (remaining P (BitStream_new P bs0))).
        rewrite (select_pump_dispatch _ ht0 ht1 S1 S0), PS.
        unfold checkHuffmanTable, workloop.
        destruct (negb (getPosition bs0 =? getPosition bs1));
          [eexists; reflexivity|].
        destruct (negb (Bool.eqb (isFullDecode ht0) (isFullDecode ht1)));
          [eexists; reflexivity|].
        revert R. destruct (isFullDecode ht0); intros R; rewrite R;
          eexists; reflexivity. }
      destruct S as (fuel & c & S). exists fuel.
      rewrite (try_block_constructed fuel (conj E0 E1)).
      destruct (negb (getPosition c0 =? getPosition c1)); eauto.
      destruct (negb (19 <=? getPosition c0)); eauto.
    - exists 0. rewrite try_block_one_fails; [eauto|rewrite E0, E1; discriminate].
    - exists 0. rewrite try_block_one_fails; [eauto|rewrite E0, E1; discriminate].
    - exists 0. rewrite try_block_both_fail; [eauto|now rewrite E0|now rewrite E1]. }
  destruct T as (fuel & c & T). exists fuel. rewrite T. simpl. eauto.
Qed.

Lemma iterate_bound n P full (ht0 : HT0) (ht1 : HT1)
    (bits0 bits1 b0 b1 : BitStream P) :
  iterate n P full ht0 ht1 bits0 bits1 = Some (b0, b1) ->
  n + remaining P b0 <= remaining P bits0.
Proof.
  revert bits0 bits1. induction n as [|n IH]; intros bits0 bits1; simpl.
  - intros [= -> _]. lia.
  - destruct (workloop_body P full ht0 ht1 bits0 bits1) as [[x0 x1]|e|a|u] eqn:B;
      try discriminate.
    intros I. apply IH in I.
    apply workloop_body_progress in B. lia.
Qed.

(** X7: with decoders on side 0 that use up their pump, the loop is
    bounded by what the pump holds at its start: no more iterations run
    to their end than that, and one iteration more ends the run - by a
    return of 0 or by the abort of one of the two decode assertions. *)
Theorem loop_ends_within (bytes : list byte) (P : Pump) (IsFullDecode : bool)
    (ht0 : HT0) (ht1 : HT1) (bs0 bs1 : ByteStream) (Data : pointer) :
  Data <> 0%N ->
  reaches_workloop bytes P IsFullDecode ht0 ht1 bs0 bs1 ->
  (forall n bits0 bits1,
      reaches_iteration BitStream_new bytes n P IsFullDecode ht0 ht1
        bits0 bits1 ->
      n <= remaining P (BitStream_new P bs0)) /\
  exists o,
    (forall fuel, remaining P (BitStream_new P bs0) < fuel ->
                  entry fuel Data bytes = Some o) /\
    (o = Returned 0 \/
     o = Aborted assert_decode_failure \/
     o = Aborted assert_decode_value).
Proof.
  intros N R. split.
  - intros n bits0 bits1 (bs0' & bs1' & R' & I).
    assert (E : bs0' = bs0 /\ bs1' = bs1).
    { destruct R as ((c0 & c1 & s & ((E0 & E1) & _) & S1 & S0 & _) & _).
      destruct R' as ((c0' & c1' & s' & ((E0' & E1') & _) & S1' & S0' & _) & _).
      assert (c0' = c0) by congruence. assert (c1' = c1) by congruence.
      subst c0' c1'. split; congruence. }
    destruct E as (-> & ->). apply iterate_bound in I. lia.
  - destruct (workloop_from_terminates P IsFullDecode ht0 ht1
                (BitStream_new P bs0) (BitStream_new P bs1)) as (r & W).
    assert (B : block (S (remaining P (BitStream_new P bs0))) bytes
                = then_break (Some r)).
    { rewrite (try_block_workloop _ R). unfold workloop. now rewrite W. }
    exists (finish (r ;; Done FallThrough)). split.
    + intros fuel L. apply (entry_mono Data bytes (fuel := S (remaining P (BitStream_new P bs0)))).
      * lia.
      * rewrite (entry_block _ bytes N), B. reflexivity.
    + apply workloop_from_ends in W as [(e & ->)|[->| ->]]; simpl; auto.
Qed.

End Termination.

(** ** Implementations that agree and use up their input *)

Section AgreementEnds.

Variable related : HT0 -> HT1 -> Prop.

Hypothesis create_agree :
  forall bs,
    match create0 bs, create1 bs with
    | Value (ht0, c0), Value (ht1, c1) => c0 = c1 /\ related ht0 ht1
    | Raise _, Raise _ => True
    | _, _ => False
    end.

Hypothesis mode_agree :
  forall ht0 ht1, related ht0 ht1 -> isFullDecode ht0 = isFullDecode ht1.

Hypothesis decode_agree :
  forall ht0 ht1, related ht0 ht1 ->
  forall P full (bits : BitStream P),
    exhausted (decode P full ht0 bits) = true \/
    exhausted (decode P full ht1 bits) = true \/
    (structural_failure (decode P full ht0 bits) = true /\
     structural_failure (decode P full ht1 bits) = true) \/
    (exists d bits', decode P full ht0 bits = Value (d, bits') /\
                     decode P full ht1 bits = Value (d, bits')).

Variable remaining : forall P : Pump, BitStream P -> nat.

Hypothesis decode_progress :
  forall P full (ht0 : HT0) (bits bits' : BitStream P) (d : Z),
    decode P full ht0 bits = Value (d, bits') ->
    remaining P bits' < remaining P bits.

(** X6: implementations that agree give no finding.  When the two
    constructions succeed or fail together, leaving the same cursor and
    tables of the same mode, when the two decoders, from the same pump,
    give the same value and pump or both fail structurally (or either
    runs out of bits), and when a successful decode on side 0 uses up
    some of its pump, every run ends, and it ends by returning 0 or by
    the abort for a construction that used fewer than 19 bytes: with
    enough fuel that is the outcome, and with no fuel is there another. *)
Theorem agreement_gives_no_finding (Data : pointer) (bytes : list byte) :
  Data <> 0%N ->
  exists fuel o,
    (forall fuel', fuel <= fuel' -> entry fuel' Data bytes = Some o) /\
    (o = Returned 0 \/ o = Aborted assert_construction_consumed) /\
    (forall fuel' o', entry fuel' Data bytes = Some o' -> o' = o).
Proof.
  intros N.
  destruct (entry_terminates remaining decode_progress Data bytes)
    as (fuel & o & H).
  exists fuel, o. split; [|split].
  - intros fuel' L. exact (entry_mono Data bytes L H).
  - exact (agreement_excludes_findings related create_agree mode_agree
             decode_agree fuel Data bytes o N H).
  - intros fuel' o' H'. exact (entry_unique H' H).
Qed.

End AgreementEnds.

End Properties.

(** * The harness on concrete buffers *)

Import Fixture.

Lemma getBuffer_inv {bs bs' : ByteStream} {n : nat} {l : list byte} :
  getBuffer bs n = Value (l, bs') ->
  data bs' = data bs /\ pos bs' = pos bs + n /\ pos bs + n <= getSize bs.
Proof.
  unfold getBuffer, check.
  destruct (pos bs + n <=? getSize bs) eqn:E; [|discriminate].
  intros [= <- <-]. apply Nat.leb_le in E. auto.
Qed.

(** ** Tables built over the documented layout *)

Section Layout.

Variable BitStream : Pump -> Type.
Variable BitStream_new : forall P : Pump, ByteStream -> BitStream P.
Context {HT0 HT1 : Type}.
Variable t0 : TableBuilder HT0.
Variable t1 : TableBuilder HT1.
Variable I0 : HuffmanTableImpl BitStream HT0.
Variable I1 : HuffmanTableImpl BitStream HT1.

(** A table that is built took its 16 counts, at least one code value
    and the two flags from the cursor. *)
Lemma layout_consumes {HT : Type} (t : TableBuilder HT)
    (bs bs' : ByteStream) (ht : HT) :
  createHuffmanTable_layout t bs = Value (ht, bs') ->
  data bs' = data bs /\ pos bs + 19 <= pos bs' /\ pos bs' <= getSize bs.
Proof.
  unfold createHuffmanTable_layout.
  destruct (getBuffer bs 16) as [[counts b1]|e] eqn:E1; [|discriminate].
  destruct (setNCodesPerLength t counts) as [count|e]; [|discriminate].
  destruct (getBuffer b1 _) as [[values b2]|e] eqn:E2; [|discriminate].
  destruct (getBuffer b2 2) as [[flags b3]|e] eqn:E3; [|discriminate].
  destruct (setup t counts values _ _) as [ht'|e]; [|discriminate].
  intros [= _ <-].
  apply getBuffer_inv in E1 as (D1 & P1 & L1).
  apply getBuffer_inv in E2 as (D2 & P2 & L2).
  apply getBuffer_inv in E3 as (D3 & P3 & L3).
  pose proof (Pos2Nat.is_pos count).
  unfold getSize in *. rewrite D3, D2, D1 in *.
  split; [reflexivity|lia].
Qed.

Lemma layout_short {HT : Type} (t : TableBuilder HT) (bytes : list byte) :
  length bytes < 19 ->
  raised (createHuffmanTable_layout t (ByteStream_new bytes)) = true.
Proof.
  intros L.
  destruct (createHuffmanTable_layout t (ByteStream_new bytes))
    as [[ht c]|e] eqn:E; [|reflexivity].
  apply layout_consumes in E as (_ & A & B).
  unfold getSize in B. simpl in A, B. lia.
Qed.

(** C8, on tables built over the documented layout: a buffer of fewer
    than 19 bytes is turned down - both constructions fail, by
    exhaustion or by the table's rejection of its counts, and the entry
    point returns 0 - and is never taken for a valid one; and whenever
    both constructions succeed, each cursor has moved on by at least 19
    bytes, within the buffer. *)
Theorem short_buffer_never_accepted (bytes : list byte) (fuel : nat)
    (Data : pointer) :
  Data <> 0%N ->
  (length bytes < 19 ->
   raised (createHuffmanTable_layout t0 (ByteStream_new bytes)) = true /\
   raised (createHuffmanTable_layout t1 (ByteStream_new bytes)) = true /\
   LLVMFuzzerTestOneInput BitStream_new (IMPL0 := layout_impl t0 I0)
     (IMPL1 := layout_impl t1 I1) fuel Data bytes = Some (Returned 0)) /\
  (forall (ht0 : HT0) c0 (ht1 : HT1) c1,
      constructed (IMPL0 := layout_impl t0 I0) (IMPL1 := layout_impl t1 I1)
        bytes ht0 c0 ht1 c1 ->
      19 <= getPosition c0 <= length bytes /\
      19 <= getPosition c1 <= length bytes).
Proof.
  intros N. split.
  - intros L.
    pose proof (layout_short t0 bytes L) as R0.
    pose proof (layout_short t1 bytes L) as R1.
    split; [exact R0|]. split; [exact R1|].
    rewrite (@entry_block BitStream BitStream_new HT0 HT1
               (layout_impl t0 I0) (layout_impl t1 I1) fuel Data bytes N).
    now rewrite (@try_block_both_fail BitStream BitStream_new HT0 HT1
                   (layout_impl t0 I0) (layout_impl t1 I1) fuel bytes R0 R1).
  - intros ht0 c0 ht1 c1 (E0 & E1). simpl in E0, E1.
    apply layout_consumes in E0 as (_ & A0 & B0).
    apply layout_consumes in E1 as (_ & A1 & B1).
    unfold getPosition, getSize in *. simpl in *. lia.
Qed.

End Layout.

(** The reference of the fixture builds its tables over that layout. *)
Lemma fixture_create_layout (bs : ByteStream) :
  create reference bs = createHuffmanTable_layout builder bs.
Proof.
  unfold create, createHuffmanTable_layout. simpl.
  destruct (getBuffer bs 16) as [[counts b1]|e]; [|reflexivity].
  destruct (list_sum (map to_nat counts)) as [|c] eqn:C; [reflexivity|].
  cbn [Nat.eqb]. rewrite Nat2Pos.id by discriminate.
  destruct (getBuffer b1 (S c)) as [[values b2]|e]; [|reflexivity].
  destruct (getBuffer b2 2) as [[flags b3]|e]; reflexivity.
Qed.

(** Every variant of the fixture keeps its cursor on the buffer. *)
Lemma fixture_cursor_discipline (q : quirks) :
  cursor_discipline (I := impl q) Table.
Proof.
  intros bs ht bs' _. simpl. unfold create.
  destruct (getBuffer bs 16) as [[counts b1]|e] eqn:E1; [|discriminate].
  destruct (list_sum (map to_nat counts) =? 0); [discriminate|].
  destruct (getBuffer b1 _) as [[values b2]|e] eqn:E2; [|discriminate].
  destruct (getBuffer b2 _) as [[flags b3]|e] eqn:E3; [|discriminate].
  intros [= _ <-].
  apply getBuffer_inv in E1 as (D1 & P1 & L1).
  apply getBuffer_inv in E2 as (D2 & P2 & L2).
  apply getBuffer_inv in E3 as (D3 & P3 & L3).
  unfold in_bounds, getSize in *. rewrite D3, D2, D1 in *.
  split; [reflexivity|lia].
Qed.

(** Every decode of the fixture uses up a byte, so its runs all end. *)
Lemma fixture_terminates (q0 q1 : quirks) (bytes : list byte) :
  exists fuel o, run q0 q1 fuel bytes = Some o.
Proof.
  apply (@entry_terminates Bits Bits_new Table Table (impl q0) (impl q1)
           (fun _ bits => length bits)).
  intros P full ht0 bits bits' d. simpl. unfold decode_byte.
  destruct bits as [|b rest]; [discriminate|].
  destruct (nth_error (codeValues ht0) (to_nat b)) as [v|].
  - intros [= _ <-]. simpl. lia.
  - destruct (default_on_miss q0); [|discriminate].
    intros [= _ <-]. simpl. lia.
Qed.

(** Counterexample for C1: both tables are built, the second with its
    mode flag negated, and the buffer ends with the header: no selector
    byte is left, the differing flags are never compared, and the entry
    point returns 0. *)
Lemma mode_mismatch_without_selector :
  constructed (IMPL0 := impl reference) (IMPL1 := impl inverted) header
    (table true) {| data := header; pos := 19 |}
    (table false) {| data := header; pos := 19 |} /\
  isFullDecode (HuffmanTableImpl := impl reference) (table true)
    <> isFullDecode (HuffmanTableImpl := impl inverted) (table false) /\
  run reference inverted 0 header = Some (Returned 0) /\
  run reference inverted 9 header = Some (Returned 0).
Proof. repeat split. discriminate. Qed.

(** Witness for C1, one buffer for each check: a second implementation
    that reads one flag byte only, on a buffer that ends before the second
    flag; one that negates the mode flag; one that gives 0 where the
    reference fails on the unknown code 1, in the second iteration; one
    that adds 1 to every value. *)
Lemma divergence_aborts_witness :
  (divergence Bits_new (impl reference) (impl short_header)
     (firstn 18 header) 0 assert_construction_failure /\
   run reference short_header 1 (firstn 18 header)
     = Some (Aborted assert_construction_failure)) /\
  (divergence Bits_new (impl reference) (impl inverted)
     (header ++ [x00; x00]) 0 assert_check_fullDecode /\
   run reference inverted 1 (header ++ [x00; x00])
     = Some (Aborted assert_check_fullDecode)) /\
  (divergence Bits_new (impl reference) (impl lenient)
     (header ++ [x00; x00; x01]) 1 assert_decode_failure /\
   run reference lenient 2 (header ++ [x00; x00; x01])
     = Some (Aborted assert_decode_failure)) /\
  (divergence Bits_new (impl reference) (impl biased)
     (header ++ [x00; x00]) 0 assert_decode_value /\
   run reference biased 1 (header ++ [x00; x00])
     = Some (Aborted assert_decode_value)).
Proof.
  assert (D1 : divergence Bits_new (impl reference) (impl short_header)
                 (firstn 18 header) 0 assert_construction_failure).
  { apply construction_diverges. discriminate. }
  assert (D2 : divergence Bits_new (impl reference) (impl inverted)
                 (header ++ [x00; x00]) 0 assert_check_fullDecode).
  { apply (@mode_diverges Bits Bits_new Table Table (impl reference)
             (impl inverted) _ BitPumpMSB (table true) (table false)
             {| data := header ++ [x00; x00]; pos := 20 |}
             {| data := header ++ [x00; x00]; pos := 20 |}).
    - reach.
    - discriminate. }
  assert (D3 : divergence Bits_new (impl reference) (impl lenient)
                 (header ++ [x00; x00; x01]) 1 assert_decode_failure).
  { apply (@failure_diverges Bits Bits_new Table Table (impl reference)
             (impl lenient) _ 1 BitPumpMSB true (table true) (table true)
             [x01] [x01]).
    - reach.
    - reflexivity.
    - reflexivity.
    - discriminate. }
  assert (D4 : divergence Bits_new (impl reference) (impl biased)
                 (header ++ [x00; x00]) 0 assert_decode_value).
  { apply (@value_diverges Bits Bits_new Table Table (impl reference)
             (impl biased) _ 0 BitPumpMSB true (table true) (table true)
             [x00] [x00] [] [] 5%Z 6%Z).
    - reach.
    - reflexivity.
    - reflexivity.
    - discriminate. }
  refine (conj (conj D1 _) (conj (conj D2 _) (conj (conj D3 _) (conj D4 _)))).
  - refine (proj1 (proj1 (@divergence_aborts Bits Bits_new Table Table
                            (impl reference) (impl short_header) _ 1%N _) 0 _ D1)
              1 _);
      [valid_pointer|lia].
  - refine (proj1 (proj1 (@divergence_aborts Bits Bits_new Table Table
                            (impl reference) (impl inverted) _ 1%N _) 0 _ D2)
              1 _);
      [valid_pointer|lia].
  - refine (proj1 (proj1 (@divergence_aborts Bits Bits_new Table Table
                            (impl reference) (impl lenient) _ 1%N _) 1 _ D3)
              2 _);
      [valid_pointer|lia].
  - refine (proj1 (proj1 (@divergence_aborts Bits Bits_new Table Table
                            (impl reference) (impl biased) _ 1%N _) 0 _ D4)
              1 _);
      [valid_pointer|lia].
Defined.

(** Witness for C2: the reference against a decoder that adds 1 to every
    value, and against itself. *)
Lemma decoded_values_compared_witness :
  run reference biased 1 (header ++ [x00; x00])
    = Some (Aborted assert_decode_value) /\
  reaches_iteration Bits_new (IMPL0 := impl reference) (IMPL1 := impl reference)
    (header ++ [x00; x00]) 1 BitPumpMSB true (table true) (table true) [] [].
Proof.
  split.
  - refine (proj1 (@decoded_values_compared Bits Bits_new Table Table
                     (impl reference) (impl biased) (header ++ [x00; x00]) 0
                     BitPumpMSB true (table true) (table true) [x00] [x00] [] []
                     5%Z 6%Z 1 1%N _ _ _ _ _) _).
    + valid_pointer.
    + lia.
    + reach.
    + reflexivity.
    + reflexivity.
    + discriminate.
  - refine (proj2 (@decoded_values_compared Bits Bits_new Table Table
                     (impl reference) (impl reference) (header ++ [x00; x00]) 0
                     BitPumpMSB true (table true) (table true) [x00] [x00] [] []
                     5%Z 5%Z 1 1%N _ _ _ _ _) _).
    + valid_pointer.
    + lia.
    + reach.
    + reflexivity.
    + reflexivity.
    + reflexivity.
Defined.

(** Witness for C3: the payload runs out in the second iteration; and
    both sides reject the code 1 in the first. *)
Lemma decode_failure_classes_witness :
  run reference reference 2 (header ++ [x00; x00]) = Some (Returned 0) /\
  run reference reference 1 (header ++ [x00; x01]) = Some (Returned 0).
Proof.
  split.
  - refine (proj2 (proj1 (@decode_failure_classes Bits Bits_new Table Table
                     (impl reference) (impl reference) (header ++ [x00; x00]) 1
                     BitPumpMSB true (table true) (table true) [] []
                     2 1%N _ _ _) _)).
    + valid_pointer.
    + lia.
    + reach.
    + left. reflexivity.
  - refine (proj2 (proj2 (proj2 (@decode_failure_classes Bits Bits_new Table Table
                     (impl reference) (impl reference) (header ++ [x00; x01]) 0
                     BitPumpMSB true (table true) (table true) [x01] [x01]
                     1 1%N _ _ _))) _ _).
    + valid_pointer.
    + lia.
    + reach.
    + reflexivity.
    + reflexivity.
Defined.

(** Counterexample for C4: the buffer ends one byte before the second
    flag, so the reference runs out of bytes during construction; a second
    implementation that reads one flag only builds its table.  The
    exhaustion on side 0 does not end the invocation: it is recorded,
    compared with side 1, and the run aborts. *)
Lemma exhaustion_in_construction_is_compared :
  createHuffmanTable (HuffmanTableImpl := impl reference)
    (ByteStream_new (firstn 18 header)) = Raise IOException /\
  raised (createHuffmanTable (HuffmanTableImpl := impl short_header)
            (ByteStream_new (firstn 18 header))) = false /\
  run reference short_header 1 (firstn 18 header)
    = Some (Aborted assert_construction_failure) /\
  run reference short_header 1 (firstn 18 header) <> Some (Returned 0).
Proof. repeat split. discriminate. Qed.

(** Witness for C4 as amended: the same buffer, and a buffer on which
    both sides run out of bytes. *)
Lemma construction_failures_compared_witness :
  run reference short_header 1 (firstn 18 header)
    = Some (Aborted assert_construction_failure) /\
  run reference reference 1 (firstn 10 header) = Some (Returned 0).
Proof.
  split.
  - refine (proj2 (proj2 (@construction_failures_compared Bits Bits_new
                     Table Table (impl reference) (impl short_header)
                     (firstn 18 header) 1 1%N _ _))).
    + valid_pointer.
    + left. reflexivity.
  - refine (proj2 (proj2 (@construction_failures_compared Bits Bits_new
                     Table Table (impl reference) (impl reference)
                     (firstn 10 header) 1 1%N _ _))).
    + valid_pointer.
    + right. reflexivity.
Defined.

(** Witness for C5: selector 3 after the header, and selector 1, the
    second time against a decoder that adds 1 to every value. *)
Lemma pump_selection_witness :
  run reference biased 1 (header ++ [x01; x00])
    = Some (Aborted assert_decode_value) /\
  run reference reference 1 (header ++ [x03; x00]) = Some (Returned 0) /\
  try_block Bits_new (IMPL0 := impl reference) (IMPL1 := impl reference)
    4 (header ++ [x01; x00])
  = then_break
      (checkHuffmanTable Bits_new (IMPL0 := impl reference)
         (IMPL1 := impl reference) 4 BitPumpMSB32
         {| data := header ++ [x01; x00]; pos := 20 |}
         {| data := header ++ [x01; x00]; pos := 20 |}
         (table true) (table true)).
Proof.
  split; [|split].
  - assert (R : reaches_selection (IMPL0 := impl reference)
                  (IMPL1 := impl biased) (header ++ [x01; x00])
                  (table true) {| data := header ++ [x01; x00]; pos := 19 |}
                  (table true) {| data := header ++ [x01; x00]; pos := 19 |})
      by reach.
    pose proof (@pump_selection Bits Bits_new Table Table (impl reference)
                  (impl biased) _ _ _ _ _ 0 1%N ltac:(valid_pointer) R) as S.
    destruct S as (_ & _ & _ & _ & _ & _ & S & _).
    refine (proj1 (proj2 (proj2 (S BitPumpMSB32 eq_refl eq_refl))
                     5%Z 6%Z [] [] eq_refl eq_refl) _).
    discriminate.
  - assert (R : reaches_selection (IMPL0 := impl reference)
                  (IMPL1 := impl reference) (header ++ [x03; x00])
                  (table true) {| data := header ++ [x03; x00]; pos := 19 |}
                  (table true) {| data := header ++ [x03; x00]; pos := 19 |})
      by reach.
    pose proof (@pump_selection Bits Bits_new Table Table (impl reference)
                  (impl reference) _ _ _ _ _ 1 1%N ltac:(valid_pointer) R) as S.
    destruct S as (_ & _ & _ & _ & _ & _ & _ & U). exact (U eq_refl).
  - assert (R : reaches_selection (IMPL0 := impl reference)
                  (IMPL1 := impl reference) (header ++ [x01; x00])
                  (table true) {| data := header ++ [x01; x00]; pos := 19 |}
                  (table true) {| data := header ++ [x01; x00]; pos := 19 |})
      by reach.
    pose proof (@pump_selection Bits Bits_new Table Table (impl reference)
                  (impl reference) _ _ _ _ _ 4 1%N ltac:(valid_pointer) R) as S.
    destruct S as (_ & _ & _ & _ & _ & B & _). exact B.
Defined.

(** Counterexample for C6: both tables are built, the second with its
    mode flag negated, and the selector is 3: the flags are never
    compared and the entry point returns 0. *)
Lemma mode_flags_unchecked_without_pump :
  constructed (IMPL0 := impl reference) (IMPL1 := impl inverted)
    (header ++ [x03; x00])
    (table true) {| data := header ++ [x03; x00]; pos := 19 |}
    (table false) {| data := header ++ [x03; x00]; pos := 19 |} /\
  isFullDecode (HuffmanTableImpl := impl reference) (table true)
    <> isFullDecode (HuffmanTableImpl := impl inverted) (table false) /\
  run reference inverted 1 (header ++ [x03; x00]) = Some (Returned 0).
Proof. repeat split. discriminate. Qed.

(** Witness for C6 as amended: the same tables with selector 0. *)
Lemma mode_flags_checked_witness :
  reaches_check (IMPL0 := impl reference) (IMPL1 := impl inverted)
    (header ++ [x00; x00]) BitPumpMSB (table true) (table false)
    {| data := header ++ [x00; x00]; pos := 20 |}
    {| data := header ++ [x00; x00]; pos := 20 |} /\
  run reference inverted 1 (header ++ [x00; x00])
    = Some (Aborted assert_check_fullDecode).
Proof.
  assert (R : reaches_check (IMPL0 := impl reference) (IMPL1 := impl inverted)
                (header ++ [x00; x00]) BitPumpMSB (table true) (table false)
                {| data := header ++ [x00; x00]; pos := 20 |}
                {| data := header ++ [x00; x00]; pos := 20 |})
    by reach.
  split; [exact R|].
  refine (proj1 (proj1 (@mode_flags_checked Bits Bits_new Table Table
                          (impl reference) (impl inverted) _ 1 1%N _)
                   _ _ _ _ _ R) _).
  - valid_pointer.
  - discriminate.
Defined.

(** Counterexample for C7: a second implementation that reads one flag
    byte only.  Both tables are built from the 19 bytes of the header,
    and at the checkpoint after construction the cursors are at 19 and
    at 18. *)
Lemma cursors_apart_after_header :
  createHuffmanTable (HuffmanTableImpl := impl reference)
    (ByteStream_new header)
    = Value (table true, {| data := header; pos := 19 |}) /\
  createHuffmanTable (HuffmanTableImpl := impl short_header)
    (ByteStream_new header)
    = Value (table false, {| data := header; pos := 18 |}) /\
  getPosition {| data := header; pos := 19 |}
    <> getPosition {| data := header; pos := 18 |}.
Proof. repeat split. discriminate. Qed.

(** Witness for C7 as amended: the second implementation reads one flag
    byte only and ends the header one byte short of the reference. *)
Lemma cursors_aligned_witness :
  constructed (IMPL0 := impl reference) (IMPL1 := impl short_header) header
    (table true) {| data := header; pos := 19 |}
    (table false) {| data := header; pos := 18 |} /\
  run reference short_header 1 header
    = Some (Aborted assert_construction_position).
Proof.
  assert (C : constructed (IMPL0 := impl reference) (IMPL1 := impl short_header)
                header
                (table true) {| data := header; pos := 19 |}
                (table false) {| data := header; pos := 18 |})
    by reach.
  split; [exact C|].
  refine (proj1 (proj1 (proj2 (@cursors_aligned Bits Bits_new Table Table
                   (impl reference) (impl short_header) header 1 1%N))
                   _ _ _ _ _ C) _).
  - valid_pointer.
  - simpl. lia.
Defined.

(** Counterexample for C8: sixteen zero counts and nothing else, 16
    bytes.  Both constructions reject the counts with a
    [RawDecoderException]; the buffer is turned down, but not by
    exhaustion. *)
Lemma short_buffer_structural_rejection :
  length empty_counts < 19 /\
  createHuffmanTable (HuffmanTableImpl := impl reference)
    (ByteStream_new empty_counts) = Raise RawDecoderException /\
  exhausted (createHuffmanTable (HuffmanTableImpl := impl reference)
               (ByteStream_new empty_counts)) = false /\
  run reference reference 1 empty_counts = Some (Returned 0).
Proof. repeat split. simpl. lia. Qed.

(** Witness for C8 as amended: the header without its last byte, and
    the whole header. *)
Lemma short_buffer_never_accepted_witness :
  length (firstn 18 header) < 19 /\
  LLVMFuzzerTestOneInput Bits_new
    (IMPL0 := layout_impl builder (impl reference))
    (IMPL1 := layout_impl builder (impl reference))
    1 1%N (firstn 18 header) = Some (Returned 0) /\
  19 <= getPosition {| data := header; pos := 19 |} <= length header.
Proof.
  assert (L : length (firstn 18 header) < 19) by (simpl; lia).
  split; [exact L|]. split.
  - exact (proj2 (proj2 (proj1 (@short_buffer_never_accepted Bits Bits_new
                                   Table Table builder builder
                                   (impl reference) (impl reference)
                                   (firstn 18 header) 1 1%N
                                   ltac:(valid_pointer)) L))).
  - refine (proj1 (proj2 (@short_buffer_never_accepted Bits Bits_new
                            Table Table builder builder
                            (impl reference) (impl reference)
                            header 1 1%N ltac:(valid_pointer))
                     (table true) {| data := header; pos := 19 |}
                     (table true) {| data := header; pos := 19 |} _)).
    reach.
Defined.



(** Witness for C10: a run that returns when the payload is used up. *)
Lemma returns_zero_witness :
  run reference reference 3 (header ++ [x00; x00]) = Some (Returned 0) /\
  (0 = 0)%Z /\
  exists e,
    try_block Bits_new (IMPL0 := impl reference) (IMPL1 := impl reference)
      3 (header ++ [x00; x00]) = Some (Thrown e).
Proof.
  assert (H : run reference reference 3 (header ++ [x00; x00])
              = Some (Returned 0)) by reflexivity.
  split; [exact H|].
  destruct (proj1 (@returns_zero Bits Bits_new Table Table
                     (impl reference) (impl reference)
                     (header ++ [x00; x00]) 3 1%N) 0%Z H)
    as (Z0 & [(R0 & _)|(ht0 & c0 & ht1 & c1 & e & _ & _ & B)]).
  - discriminate R0.
  - split; [exact Z0|]. exists e. exact B.
Defined.

(** ** Further runs *)

Lemma fixture_decode_progress (q : quirks) :
  forall P full (ht : Table) (bits bits' : Bits P) (d : Z),
    decode (HuffmanTableImpl := impl q) P full ht bits = Value (d, bits') ->
    length bits' < length bits.
Proof.
  intros P full ht bits bits' d. simpl. unfold decode_byte.
  destruct bits as [|b rest]; [discriminate|].
  destruct (nth_error (codeValues ht) (to_nat b)) as [v|].
  - intros [= _ <-]. simpl. lia.
  - destruct (default_on_miss q); [|discriminate].
    intros [= _ <-]. simpl. lia.
Qed.

(** Witness for X1: the abort of the lenient decoder's run is traced
    back to a divergence. *)
Lemma abort_is_divergence_witness :
  run reference lenient 2 (header ++ [x00; x00; x01])
    = Some (Aborted assert_decode_failure) /\
  ((assert_decode_failure = assert_Data /\ 1%N = 0%N) \/
   (exists (ht0 : Table) c0 (ht1 : Table) c1,
       constructed (IMPL0 := impl reference) (IMPL1 := impl lenient)
         (header ++ [x00; x00; x01]) ht0 c0 ht1 c1 /\
       ((assert_decode_failure = assert_construction_position /\
         getPosition c0 <> getPosition c1) \/
        (assert_decode_failure = assert_construction_consumed /\
         getPosition c0 = getPosition c1 /\ getPosition c0 < 19))) \/
   (exists n, divergence Bits_new (impl reference) (impl lenient)
                (header ++ [x00; x00; x01]) n assert_decode_failure)).
Proof.
  assert (H : run reference lenient 2 (header ++ [x00; x00; x01])
              = Some (Aborted assert_decode_failure)) by reflexivity.
  split; [exact H|].
  exact (@abort_is_divergence Bits Bits_new Table Table (impl reference)
           (impl lenient) 2 1%N (header ++ [x00; x00; x01])
           assert_decode_failure H).
Defined.

(** Witness for X2: a run that returns when the payload is used up. *)
Lemma return_after_agreement_witness :
  run reference reference 3 (header ++ [x00; x00]) = Some (Returned 0) /\
  exists n bits0 bits1,
    n < 3 /\
    reaches_iteration Bits_new (IMPL0 := impl reference)
      (IMPL1 := impl reference) (header ++ [x00; x00]) n BitPumpMSB true
      (table true) (table true) bits0 bits1 /\
    (exhausted (decode (HuffmanTableImpl := impl reference)
                  BitPumpMSB true (table true) bits0) = true \/
     exhausted (decode (HuffmanTableImpl := impl reference)
                  BitPumpMSB true (table true) bits1) = true \/
     (structural_failure (decode (HuffmanTableImpl := impl reference)
                            BitPumpMSB true (table true) bits0) = true /\
      structural_failure (decode (HuffmanTableImpl := impl reference)
                            BitPumpMSB true (table true) bits1) = true)).
Proof.
  assert (H : run reference reference 3 (header ++ [x00; x00])
              = Some (Returned 0)) by reflexivity.
  split; [exact H|].
  refine (@return_after_agreement Bits Bits_new Table Table (impl reference)
            (impl reference) 3 1%N (header ++ [x00; x00]) BitPumpMSB true
            (table true) (table true)
            {| data := header ++ [x00; x00]; pos := 20 |}
            {| data := header ++ [x00; x00]; pos := 20 |} 0%Z _ H).
  reach.
Defined.

(** Witness for X3: two iterations over the payload 0, 0. *)
Lemma lockstep_decoding_witness :
  iterate (IMPL0 := impl reference) (IMPL1 := impl reference) 2 BitPumpMSB
    true (table true) (table true) [x00; x00] [x00; x00] = Some ([], []) /\
  exists ds,
    decode_run (I := impl reference) 2 BitPumpMSB true (table true)
      [x00; x00] = Some (ds, []) /\
    decode_run (I := impl reference) 2 BitPumpMSB true (table true)
      [x00; x00] = Some (ds, []).
Proof.
  assert (H : iterate (IMPL0 := impl reference) (IMPL1 := impl reference) 2
                BitPumpMSB true (table true) (table true)
                [x00; x00] [x00; x00] = Some ([], [])) by reflexivity.
  split; [exact H|].
  exact (proj1 (@lockstep_decoding Bits Table Table (impl reference)
                  (impl reference) 2 BitPumpMSB true (table true)
                  (table true) [x00; x00] [x00; x00] [] []) H).
Defined.


(** Witness for X5: the header alone, 19 bytes. *)
Lemma no_decode_below_20_bytes_witness :
  length header < 20 /\
  run reference reference 7 header = run reference reference 0 header.
Proof.
  assert (L : length header < 20) by (simpl; lia).
  split; [exact L|].
  exact (proj1 (proj2 (@no_decode_below_20_bytes Bits Bits_new Table Table
                         (impl reference) (impl reference) header 7 1%N
                         (fixture_cursor_discipline reference) L
                         ltac:(valid_pointer)))).
Defined.

(** Witness for X6: the reference against itself. *)
Lemma agreement_gives_no_finding_witness :
  exists fuel o,
    (forall fuel', fuel <= fuel' ->
       run reference reference fuel' (header ++ [x00; x00; x01]) = Some o) /\
    (o = Returned 0 \/ o = Aborted assert_construction_consumed) /\
    (forall fuel' o',
       run reference reference fuel' (header ++ [x00; x00; x01]) = Some o' ->
       o' = o).
Proof.
  refine (@agreement_gives_no_finding Bits Bits_new Table Table
            (impl reference) (impl reference) eq _ _ _
            (fun _ bits => length bits) (fixture_decode_progress reference)
            1%N (header ++ [x00; x00; x01]) ltac:(valid_pointer)).
  - intros bs. simpl. destruct (create reference bs) as [[ht c]|e]; auto.
  - intros ht0 ht1 ->. reflexivity.
  - intros ht0 ht1 -> P full bits. simpl.
    destruct (decode_byte reference P full ht1 bits) as [[d b]|[]]; simpl;
      eauto 8.
Defined.

(** Witness for X7: three payload bytes bound the loop by three
    iterations. *)
Lemma loop_ends_within_witness :
  reaches_workloop (IMPL0 := impl reference) (IMPL1 := impl biased)
    (header ++ [x00; x07; x07; x00]) BitPumpMSB true (table true) (table true)
    {| data := header ++ [x00; x07; x07; x00]; pos := 20 |}
    {| data := header ++ [x00; x07; x07; x00]; pos := 20 |} /\
  exists o,
    (forall fuel, 3 < fuel ->
       run reference biased fuel (header ++ [x00; x07; x07; x00]) = Some o) /\
    (o = Returned 0 \/
     o = Aborted assert_decode_failure \/
     o = Aborted assert_decode_value).
Proof.
  assert (R : reaches_workloop (IMPL0 := impl reference) (IMPL1 := impl biased)
                (header ++ [x00; x07; x07; x00]) BitPumpMSB true
                (table true) (table true)
                {| data := header ++ [x00; x07; x07; x00]; pos := 20 |}
                {| data := header ++ [x00; x07; x07; x00]; pos := 20 |})
    by reach.
  split; [exact R|].
  exact (proj2 (@loop_ends_within Bits Bits_new Table Table (impl reference)
                  (impl biased) (fun _ bits => length bits)
                  (fixture_decode_progress reference)
                  _ _ _ _ _ _ _ 1%N ltac:(valid_pointer) R)).
Defined.

(** Witness for X8: the lenient decoder on either side. *)
Lemma sides_exchangeable_witness :
  run lenient reference 2 (header ++ [x00; x00; x01])
  = run reference lenient 2 (header ++ [x00; x00; x01]).
Proof.
  exact (@sides_exchangeable Bits Bits_new Table Table (impl reference)
           (impl lenient) 2 1%N (header ++ [x00; x00; x01])
           (fixture_cursor_discipline reference)
           (fixture_cursor_discipline lenient)).
Defined.
